(** * SPAdes tool wrapper: the assembly accumulator of [tools/spades.py]

    A shallow embedding of [SpadesTool.execute] and [SpadesTool.assemble]
    and the properties of the control loop: what is run, when the loop
    stops, and how the outputs of the attempts are merged into
    [contigs_out].

    The program is effectful: it reads and writes files, logs and runs an
    external process.  It is embedded in a state-and-exception monad over
    an explicit file system; the external assembler is an arbitrary
    function of the interface [Externals]. *)

From stdpp Require Import base gmap strings list pretty.
From Stdlib Require Import ZArith.

#[local] Open Scope Z_scope.

(** ** Data *)

(** File contents are bytes. *)
Abbreviation bytes := (list Byte.byte).

(** A path is either one supplied by the caller, or the file [name] inside
    the [d]-th scratch directory made by [util.file.tmp_dir]
    ([os.path.join(spades_dir, name)]).  Scratch directories are fresh, so
    no caller-supplied path points into one. *)
Inductive path :=
| User (s : string)
| Scratch (d : nat) (name : string).

#[global] Instance path_eq_dec : EqDecision path.
Proof. solve_decision. Defined.

#[global] Instance path_countable : Countable path.
Proof.
  refine (inj_countable'
            (λ p, match p with User s => inl s | Scratch d n => inr (d, n) end)
            (λ x, match x with inl s => User s | inr (d, n) => Scratch d n end) _).
  by intros [].
Defined.

(** [Library = collections.namedtuple('Library', 'reads_fwd reads_bwd
    reads_unpaired')]; a field is a file name or Python's [None]. *)
Record Library := mkLibrary {
  reads_fwd : option string;
  reads_bwd : option string;
  reads_unpaired : option string
}.

(** A k-mer size is an integer or [None]. *)
Definition kmer_size := option Z.

(** A sequence record as [Bio.SeqIO] yields it: the header line and the
    sequence; [len(r.seq)] is [seq_len]. *)
Record seq_record := mkSeqRecord {
  rec_header : string;
  rec_seq : bytes
}.

Definition seq_len (r : seq_record) : Z := Z.of_nat (length (rec_seq r)).

(** What one run of the external assembler does, as far as this code can
    see: whether [subprocess.check_call] raised ([tool_error], with the
    text of the exception), and which of the files of its contract it left
    in the output directory. *)
Record tool_result := mkToolResult {
  tool_error : option string;
  out_contigs : option bytes;
  out_transcripts : option bytes;
  out_hard_filtered : option bytes
}.

(** Exceptions that leave [assemble]. *)
Inductive exn :=
| AssertionError (msg : option string)
| RuntimeError (msg : string)
| ValueError
| ToolFailure (e : string)
| FileNotFoundError (p : path)
| UnboundLocalError (var : string).

(** Entries of the log, at the levels [warning] and [info] (the [debug]
    lines carry no information of their own and are left out). *)
Inductive log_entry :=
| WarnNoLibraries
| InfoAssembling (n : nat)
| WarnSpadesFailed (k : kmer_size) (lib : option Library) (e : exn)
| Warning (msg : string).

(** One call of [self.execute]: the arguments (after [map(str, args)]) and
    what the tool did. *)
Record call := mkCall {
  call_args : list string;
  call_result : tool_result
}.

(** The world the program acts on.  [calls] and [snapshots] are history:
    [calls] records every external invocation in order, [snapshots] the
    contents of [contigs_out] as read from [files] at the end of every
    completed attempt. *)
Record state := mkState {
  files : gmap path bytes;
  log : list log_entry;
  calls : list call;
  snapshots : list (option bytes);
  next_dir : nat
}.

(** The parameters of [assemble]. *)
Record params := mkParams {
  libraries : list Library;
  contigs_out : string;
  contigs_trusted : option string;
  contigs_untrusted : option string;
  kmer_sizes : option (list kmer_size);
  mode : string;
  always_succeed : bool;
  max_kmer_sizes : Z;
  filter_contigs : bool;
  min_contig_len : Z;
  mem_limit_gb : Z;
  threads : option Z;
  spades_opts : string
}.

(** What the program uses and the repository does not define: the
    assembler itself, Biopython's FASTA reader and writer, [shlex.split],
    [util.misc.sanitize_thread_count] and the names [tempfile.mkdtemp]
    picks.  [shlex.split] raises [ValueError] on a string it cannot
    split (an open quotation, a trailing escape): it gives no list then.
    An empty file holds no record and no record makes an empty file. *)
Class Externals := {
  spades : nat → list string → gmap path bytes → tool_result;
  parse_fasta : bytes → list seq_record;
  write_fasta : list seq_record → bytes;
  shlex_split : string → option (list string);
  sanitize_thread_count : option Z → Z;
  dir_name : nat → string;
  parse_fasta_nil : parse_fasta [] = [];
  write_fasta_nil : write_fasta [] = []
}.

(** ** The monad: state and exceptions *)

Inductive result (A : Type) :=
| Ok (a : A)
| Raise (e : exn).
Arguments Ok {A} a.
Arguments Raise {A} e.

Definition M (A : Type) : Type := state → result A * state.

#[global] Instance M_ret : MRet M := λ A a σ, (Ok a, σ).

#[global] Instance M_bind : MBind M := λ A B k m σ,
  match m σ with
  | (Ok a, σ') => k a σ'
  | (Raise e, σ') => (Raise e, σ')
  end.

Definition raise {A} (e : exn) : M A := λ σ, (Raise e, σ).

Definition get_files : M (gmap path bytes) := λ σ, (Ok (files σ), σ).

Definition set_files (fs : gmap path bytes) : M unit :=
  λ σ, (Ok tt, mkState fs (log σ) (calls σ) (snapshots σ) (next_dir σ)).

Definition log_msg (e : log_entry) : M unit :=
  λ σ, (Ok tt, mkState (files σ) (log σ ++ [e]) (calls σ) (snapshots σ) (next_dir σ)).

Definition record_snapshot (p : path) : M unit :=
  λ σ, (Ok tt, mkState (files σ) (log σ) (calls σ) (snapshots σ ++ [files σ !! p]) (next_dir σ)).

(** [assert cond, msg] *)
Definition assert_ (cond : bool) (msg : option string) : M unit :=
  if cond then mret tt else raise (AssertionError msg).

(** A [for] loop over a list that threads the local variables [L] and can
    [break]. *)
Inductive control := Continue | Break.

Fixpoint for_loop {A L} (body : A → L → M (control * L)) (xs : list A) (v : L)
  : M L :=
  match xs with
  | [] => mret v
  | x :: xs' =>
      r ← body x v;
      match r.1 with
      | Break => mret r.2
      | Continue => for_loop body xs' r.2
      end
  end.

(** ** Files *)

(** Python truth of a path: a non-empty string. *)
Definition truthy_path (p : path) : bool :=
  match p with
  | User s => negb (String.eqb s "")
  | Scratch _ _ => true
  end.

(** [os.path.isfile(f)] *)
Definition isfile (fs : gmap path bytes) (p : path) : bool :=
  bool_decide (is_Some (fs !! p)).

(** [is_nonempty_file], lines 86-87:
    [f and os.path.isfile(f) and os.path.getsize(f) > 0]. *)
Definition is_nonempty_file (fs : gmap path bytes) (f : option path) : bool :=
  match f with
  | None => false
  | Some p =>
      truthy_path p &&
      match fs !! p with
      | Some c => bool_decide (0 < length c)%nat
      | None => false
      end
  end.

(** Modelled from the spec: [util.file.make_empty] is not among the
    sources; it makes the file exist and be empty, truncating it. *)
Definition make_empty (p : path) : M unit :=
  fs ← get_files; set_files (<[p := []]> fs).

(** Reading a file that must exist. *)
Definition read_file (p : path) : M bytes :=
  fs ← get_files;
  match fs !! p with
  | Some c => mret c
  | None => raise (FileNotFoundError p)
  end.

Fixpoint read_all (ps : list path) : M bytes :=
  match ps with
  | [] => mret []
  | p :: ps' => c ← read_file p; cs ← read_all ps'; mret (c ++ cs)
  end.

(** Modelled from the spec: [util.file.concat] is not among the sources;
    it writes the contents of the input files, in order, to the output
    file, after what the output file holds when [append] is set. *)
Definition concat_files (inputFilePaths : list path) (outputFilePath : path)
    (append : bool) : M unit :=
  fs ← get_files;
  let old := if append then default [] (fs !! outputFilePath) else [] in
  set_files (<[outputFilePath := old]> fs) ;;
  new ← read_all inputFilePaths;
  fs' ← get_files;
  set_files (<[outputFilePath := old ++ new]> fs').

(** [shutil.copyfile(src, dst)] *)
Definition copyfile (src dst : path) : M unit :=
  c ← read_file src;
  fs ← get_files;
  set_files (<[dst := c]> fs).

(** Is the path inside the [d]-th scratch directory? *)
Definition in_dir (d : nat) (p : path) : bool :=
  match p with
  | User _ => false
  | Scratch d' _ => bool_decide (d' = d)
  end.

(** [shutil.rmtree] of the [d]-th scratch directory. *)
Definition rmtree (d : nat) (fs : gmap path bytes) : gmap path bytes :=
  filter (λ kv, in_dir d kv.1 = false) fs.

(** Modelled from the spec: [util.file.tmp_dir] is not among the sources;
    it makes a fresh, empty scratch directory for the body and removes it
    when the body ends, whether it returns or raises. *)
Definition with_tmp_dir {A} (body : nat → M A) : M A :=
  λ σ,
    let d := next_dir σ in
    let r := body d (mkState (rmtree d (files σ)) (log σ) (calls σ)
                       (snapshots σ) (S d)) in
    (r.1, mkState (rmtree d (files r.2)) (log r.2) (calls r.2) (snapshots r.2)
            (next_dir r.2)).

(** ** The program *)

Section Program.
Context `{Externals}.

(** [str(x)] of what goes into the argument list. *)
Definition str_fname (f : option string) : string := default "None" f.

Definition str_kmer (k : kmer_size) : string :=
  match k with
  | Some z => pretty z
  | None => "None"
  end.

(** Python truth of an optional string and of an optional integer. *)
Definition truthy_str (f : option string) : bool :=
  match f with
  | Some s => negb (String.eqb s "")
  | None => false
  end.

Definition truthy_int (k : option Z) : bool :=
  match k with
  | Some z => negb (z =? 0)
  | None => false
  end.

Definition enumerate {A} (l : list A) : list (nat * A) :=
  zip (seq 0 (length l)) l.

(** Modelled from the spec: [util.misc.make_seq] is not among the sources;
    a list of k-mer sizes is iterated as it is, and an absent one stands
    for the single size [None] (auto-selected). *)
Definition make_seq (ks : option (list kmer_size)) : list kmer_size :=
  default [None] ks.

(** The files the tool left in its output directory [d]. *)
Definition write_opt (p : path) (oc : option bytes) (fs : gmap path bytes)
  : gmap path bytes :=
  match oc with
  | Some c => <[p := c]> fs
  | None => fs
  end.

Definition tool_writes (d : nat) (r : tool_result) (fs : gmap path bytes)
  : gmap path bytes :=
  write_opt (Scratch d "hard_filtered_transcripts.fasta") (out_hard_filtered r)
    (write_opt (Scratch d "transcripts.fasta") (out_transcripts r)
       (write_opt (Scratch d "contigs.fasta") (out_contigs r) fs)).

(** [SpadesTool.execute], lines 40-43.  The tool is the [n]-th invocation,
    sees the arguments and the files, and writes into the directory given
    after [-o], which the embedding passes as [d]; [check_call] raises when
    it fails. *)
Definition execute (d : nat) (args : list string) : M unit :=
  λ σ,
    let r := spades (length (calls σ)) args (files σ) in
    let σ' := mkState (tool_writes d r (files σ)) (log σ)
                (calls σ ++ [mkCall args r]) (snapshots σ) (next_dir σ) in
    match tool_error r with
    | Some e => (Raise (ToolFailure e), σ')
    | None => (Ok tt, σ')
    end.

(** The local variables of [assemble] that live across attempts. *)
Record locals := mkLocals {
  contigs_cumul_count : Z;
  kmer_sizes_succeeded : Z;
  this_kmer_size_succeeded : bool;
  transcripts_fname : option path
}.

(** Lines 105-108: the arguments of the library numbered [lib_num]. *)
Definition lib_args (fs : gmap path bytes) (lib_num : nat) (lib : Library)
  : list string :=
  let lib_pfx := "--pe" +:+ pretty (lib_num + 1)%nat in
  [lib_pfx +:+ "-1"; str_fname (reads_fwd lib);
   lib_pfx +:+ "-2"; str_fname (reads_bwd lib)] ++
  (if is_nonempty_file fs (User <$> reads_unpaired lib)
   then [lib_pfx +:+ "-s"; str_fname (reads_unpaired lib)]
   else []).

(** Lines 103-108: the body of the loop over the numbered libraries. *)
Definition lib_args_body (x : nat * Library) (args : list string)
  : M (control * list string) :=
  assert_ (bool_decide (x.1 < 9)%nat) None;;
  fs ← get_files;
  mret (Continue, args ++ lib_args fs x.1 x.2).

(** The libraries of one invocation: all of them in rna mode, the one of
    the outer loop in meta mode (line 103). *)
Definition libs_of_attempt (P : params) (libs : list Library)
    (lib : option Library) : list Library :=
  if String.eqb (mode P) "rna" then libs else option_list lib.

(** Line 113: the words of [spades_opts]; none when it is empty, and no
    list at all when [shlex.split] raises. *)
Definition split_opts (P : params) : option (list string) :=
  if negb (String.eqb (spades_opts P) "") then shlex_split (spades_opts P)
  else Some [].

(** Lines 110-114: the arguments after those of the libraries, [opts]
    being the words of [spades_opts]. *)
Definition common_args_with (P : params) (nthreads : Z) (k : kmer_size) (d : nat)
    (opts : list string) : list string :=
  (if truthy_str (contigs_trusted P)
   then ["--trusted-contigs"; str_fname (contigs_trusted P)] else []) ++
  (if truthy_str (contigs_untrusted P)
   then ["--untrusted-contigs"; str_fname (contigs_untrusted P)] else []) ++
  (if truthy_int k then ["-k"; str_kmer k] else []) ++
  opts ++
  ["-m" +:+ pretty (mem_limit_gb P); "-t"; pretty nthreads; "-o"; dir_name d].

Definition mode_flag (P : params) : string :=
  if String.eqb (mode P) "rna" then "--rna" else "--meta".

(** Lines 102-114: the argument list.  The assertion of line 104 comes
    first; then line 113 raises [ValueError] when [spades_opts] does not
    split, before anything is run. *)
Definition build_args (P : params) (libs : list Library) (nthreads : Z)
    (k : kmer_size) (lib : option Library) (d : nat) : M (list string) :=
  args ← for_loop lib_args_body (enumerate (libs_of_attempt P libs lib))
           [mode_flag P];
  match split_opts P with
  | Some opts => mret (args ++ common_args_with P nthreads k d opts)
  | None => raise ValueError
  end.

(** Lines 116-119: the file the assembler is to produce. *)
Definition transcripts_name (P : params) : string :=
  if String.eqb (mode P) "meta" then "contigs.fasta"
  else (if filter_contigs P then "hard_filtered_" else "") +:+ "transcripts.fasta".

(** The variable [lib] after the loop of line 103, which rebinds it. *)
Definition lib_after (P : params) (libs : list Library) (lib : option Library)
  : option Library :=
  match last (libs_of_attempt P libs lib) with
  | Some l => Some l
  | None => lib
  end.

(** Lines 121-128: run the tool; a failure is a warning and an empty
    transcripts file under [always_succeed], and raised again otherwise. *)
Definition invoke (P : params) (k : kmer_size) (lib : option Library)
    (d : nat) (args : list string) (tf : path) : M unit :=
  λ σ,
    match execute d args σ with
    | (Raise e, σ') =>
        if always_succeed P
        then (log_msg (WarnSpadesFailed k lib e);; make_empty tf) σ'
        else (Raise e, σ')
    | (Ok _, σ') => (Ok tt, σ')
    end.

Definition missing_msg (k : kmer_size) : string :=
  "SPAdes failed to make transcripts.fasta for k=" +:+ str_kmer k.

(** Lines 130-137: the tool may succeed and still not make the file. *)
Definition check_transcripts (P : params) (k : kmer_size) (tf : path) : M unit :=
  fs ← get_files;
  if negb (isfile fs tf) then
    let msg := missing_msg k in
    if always_succeed P
    then log_msg (Warning msg);; make_empty tf
    else raise (RuntimeError msg)
  else mret tt.

(** Line 141: the records that are long enough. *)
Definition sans_short (L : Z) (rs : list seq_record) : list seq_record :=
  List.filter (λ r, seq_len r >=? L) rs.

Definition over_name (L count : Z) : string :=
  "transcripts_over_" +:+ pretty L +:+ "bp." +:+ pretty count +:+ ".fasta".

(** Lines 139-145: drop the short contigs; gives the new
    [transcripts_fname]. *)
Definition drop_short (P : params) (d : nat) (count : Z) (tf : path) : M path :=
  if negb (min_contig_len P =? 0) then
    c ← read_file tf;
    let transcripts_sans_short := sans_short (min_contig_len P) (parse_fasta c) in
    let tf' := Scratch d (over_name (min_contig_len P) count) in
    fs ← get_files;
    set_files (<[tf' := write_fasta transcripts_sans_short]> fs);;
    mret tf'
  else mret tf.

Definition cumul_name (count : Z) : string :=
  "contigs_cumul." +:+ pretty count +:+ ".fasta".

(** Lines 147-151 (the counter is stepped by the caller): append the
    transcripts to [contigs_out] through the cumulative file. *)
Definition accumulate (P : params) (d : nat) (count : Z) (tf : path) : M unit :=
  let contigs_cumul := Scratch d (cumul_name count) in
  concat_files [User (contigs_out P); tf] contigs_cumul true;;
  copyfile contigs_cumul (User (contigs_out P)).

(** Lines 139-153: filter, append, and note whether the transcripts file
    is non-empty. *)
Definition merge_transcripts (P : params) (d : nat) (v : locals) (tf : path)
  : M locals :=
  tf ← drop_short P d (contigs_cumul_count v) tf;
  accumulate P d (contigs_cumul_count v) tf;;
  record_snapshot (User (contigs_out P));;
  fs ← get_files;
  mret (mkLocals (contigs_cumul_count v + 1) (kmer_sizes_succeeded v)
          (this_kmer_size_succeeded v || is_nonempty_file fs (Some tf))
          (Some tf)).

(** Lines 100-153: one attempt, in its own scratch directory. *)
Definition attempt (P : params) (libs : list Library) (nthreads : Z)
    (k : kmer_size) (lib : option Library) (v : locals) : M locals :=
  with_tmp_dir (λ d,
    args ← build_args P libs nthreads k lib d;
    let tf := Scratch d (transcripts_name P) in
    invoke P k (lib_after P libs lib) d args tf;;
    check_transcripts P k tf;;
    merge_transcripts P d v tf).

(** The libraries the inner loop of line 99 runs over. *)
Definition lib_rounds (P : params) (libs : list Library) : list (option Library) :=
  if String.eqb (mode P) "meta" then Some <$> libs else [None].

(** Lines 99-155: the loop over the libraries, one attempt each. *)
Definition lib_loop (P : params) (libs : list Library) (nthreads : Z)
    (k : kmer_size) (rounds : list (option Library)) (v : locals) : M locals :=
  for_loop (λ lib v, v' ← attempt P libs nthreads k lib v; mret (Continue, v'))
    rounds v.

(** Lines 96-160: the body of the loop over the k-mer sizes. *)
Definition kmer_body (P : params) (libs : list Library) (nthreads : Z)
    (k : kmer_size) (v : locals) : M (control * locals) :=
  let v := mkLocals (contigs_cumul_count v) (kmer_sizes_succeeded v) false
             (transcripts_fname v) in
  v ← lib_loop P libs nthreads k (lib_rounds P libs) v;
  match transcripts_fname v with
  | None => raise (UnboundLocalError "transcripts_fname")
  | Some tf =>
      fs ← get_files;
      if is_nonempty_file fs (Some tf) then
        let v := mkLocals (contigs_cumul_count v) (kmer_sizes_succeeded v + 1)
                   (this_kmer_size_succeeded v) (transcripts_fname v) in
        if kmer_sizes_succeeded v >=? max_kmer_sizes P
        then mret (Break, v)
        else mret (Continue, v)
      else mret (Continue, v)
  end.

Definition valid_mode (m : string) : bool :=
  String.eqb m "rna" || String.eqb m "meta".

(** Line 89: the libraries with a non-empty file of forward reads. *)
Definition qualifying (fs : gmap path bytes) (libs : list Library) : list Library :=
  List.filter (λ lib, is_nonempty_file fs (User <$> reads_fwd lib)) libs.

(** Lines 93-160: what [assemble] does once some library qualifies. *)
Definition run_kmers (P : params) (libs : list Library) (nthreads : Z) : M unit :=
  log_msg (InfoAssembling (length libs));;
  for_loop (kmer_body P libs nthreads) (make_seq (kmer_sizes P))
    (mkLocals 0 0 false None);;
  mret tt.

(** Lines 86-160: [assemble] once [contigs_out] is made empty. *)
Definition assemble_libs (P : params) : M unit :=
  fs ← get_files;
  let libs := qualifying fs (libraries P) in
  match libs with
  | [] => log_msg WarnNoLibraries
  | _ => run_kmers P libs (sanitize_thread_count (threads P))
  end.

(** Lines 81-160: [assemble] after the check of the mode. *)
Definition assemble_checked (P : params) : M unit :=
  make_empty (User (contigs_out P));;
  assemble_libs P.

(** [SpadesTool.assemble], lines 47-160. *)
Definition assemble (P : params) : M unit :=
  assert_ (valid_mode (mode P)) (Some ("Invalid SPAdes mode: " +:+ mode P));;
  assemble_checked P.

(** ** What a run is expected to leave behind

    The functions below read a run off the history of the invocations;
    the theorems relate them to what the program does. *)

(** The arguments of all libraries of one invocation, numbered from
    [start]. *)
Fixpoint pe_args (fs : gmap path bytes) (start : nat) (libs : list Library)
  : list string :=
  match libs with
  | [] => []
  | lib :: libs' => lib_args fs start lib ++ pe_args fs (S start) libs'
  end.

(** The arguments after those of the libraries in an invocation that is
    made: [spades_opts] has split then. *)
Definition common_args (P : params) (nthreads : Z) (k : kmer_size) (d : nat)
  : list string :=
  common_args_with P nthreads k d (default [] (split_opts P)).

Definition args_of (P : params) (libs : list Library) (nthreads : Z)
    (k : kmer_size) (lib : option Library) (d : nat) (fs : gmap path bytes)
  : list string :=
  (mode_flag P :: pe_args fs 0 (libs_of_attempt P libs lib))
    ++ common_args P nthreads k d.

(** The file of the tool's result that [transcripts_name] names. *)
Definition expected_out (P : params) (r : tool_result) : option bytes :=
  if String.eqb (mode P) "meta" then out_contigs r
  else if filter_contigs P then out_hard_filtered r
  else out_transcripts r.

(** An invocation went through when the tool did not fail and left its
    transcripts file. *)
Definition tool_ok (P : params) (r : tool_result) : bool :=
  match tool_error r, expected_out P r with
  | None, Some _ => true
  | _, _ => false
  end.

(** The transcripts an attempt goes on with after lines 121-137, if it goes
    on: those of the tool, or none for a tolerated failure. *)
Definition yield (P : params) (r : tool_result) : option bytes :=
  match tool_error r, expected_out P r with
  | None, Some t => Some t
  | _, _ => if always_succeed P then Some [] else None
  end.

(** The exception of an attempt that does not go on. *)
Definition failure (k : kmer_size) (r : tool_result) : exn :=
  match tool_error r with
  | Some e => ToolFailure e
  | None => RuntimeError (missing_msg k)
  end.

(** The warnings of an attempt that goes on. *)
Definition warnings (P : params) (k : kmer_size) (lib : option Library)
    (r : tool_result) : list log_entry :=
  match tool_error r, expected_out P r with
  | Some e, _ => [WarnSpadesFailed k lib (ToolFailure e)]
  | None, None => [Warning (missing_msg k)]
  | None, Some _ => []
  end.

(** Lines 139-145 on the contents: what is appended for transcripts [t]. *)
Definition filtered (P : params) (t : bytes) : bytes :=
  if negb (min_contig_len P =? 0)
  then write_fasta (sans_short (min_contig_len P) (parse_fasta t))
  else t.

(** The name of [transcripts_fname] when the attempt ends. *)
Definition final_name (P : params) (count : Z) : string :=
  if negb (min_contig_len P =? 0) then over_name (min_contig_len P) count
  else transcripts_name P.

(** What the invocation [c] adds to [contigs_out]. *)
Definition contribution (P : params) (c : call) : bytes :=
  filtered P (default [] (yield P (call_result c))).

(** What the invocations [cs] add together, in order. *)
Definition merged (P : params) (cs : list call) : bytes :=
  List.concat (List.map (contribution P) cs).

(** What the invocations add together when the short contigs are dropped. *)
Definition merged_long (P : params) (cs : list call) : bytes :=
  List.concat
    (List.map
       (λ c, write_fasta
               (sans_short (min_contig_len P)
                  (parse_fasta (default [] (yield P (call_result c))))))
       cs).

(** The contents of [contigs_out] at the end of each of the attempts [cs],
    when it holds [c0] before the first. *)
Definition snaps_of (P : params) (c0 : bytes) (cs : list call)
  : list (option bytes) :=
  List.map (λ n, Some (c0 ++ merged P (take (S n) cs))) (seq 0 (length cs)).

(** One attempt as a function of the state it starts in. *)
Definition attempt_result (P : params) (libs : list Library) (nthreads : Z)
    (k : kmer_size) (lib : option Library) (v : locals) (c0 : bytes) (σ : state)
  : result locals * state :=
  let d := next_dir σ in
  let fs0 := rmtree d (files σ) in
  if bool_decide (length (libs_of_attempt P libs lib) ≤ 9)%nat then
    if bool_decide (is_Some (split_opts P)) then
      let args := args_of P libs nthreads k lib d fs0 in
      let r := spades (length (calls σ)) args fs0 in
      let cs := calls σ ++ [mkCall args r] in
      match yield P r with
      | Some t =>
          let c := c0 ++ filtered P t in
          (Ok (mkLocals (contigs_cumul_count v + 1) (kmer_sizes_succeeded v)
                 (this_kmer_size_succeeded v
                  || bool_decide (0 < length (filtered P t))%nat)
                 (Some (Scratch d (final_name P (contigs_cumul_count v))))),
           mkState (<[User (contigs_out P) := c]> fs0)
             (log σ ++ warnings P k (lib_after P libs lib) r) cs
             (snapshots σ ++ [Some c]) (S d))
      | None =>
          (Raise (failure k r), mkState fs0 (log σ) cs (snapshots σ) (S d))
      end
    else
      (Raise ValueError, mkState fs0 (log σ) (calls σ) (snapshots σ) (S d))
  else
    (Raise (AssertionError None),
     mkState fs0 (log σ) (calls σ) (snapshots σ) (S d)).

(** More than nine libraries in one invocation: line 104 fails. *)
Definition too_many (P : params) (libs : list Library) : bool :=
  String.eqb (mode P) "rna" && bool_decide (9 < length libs)%nat.

(** What holds of the state between attempts, when [contigs_out] held
    [c0] before the first: it holds [c0] and what the invocations so far
    have added, every attempt was noted, every invocation went on,
    every failure of the tool left a warning, and when something was run
    the argument list could be built. *)
Definition consistent (P : params) (libs : list Library) (c0 : bytes)
    (σ : state) : Prop :=
  files σ !! User (contigs_out P) = Some (c0 ++ merged P (calls σ))
  ∧ snapshots σ = snaps_of P c0 (calls σ)
  ∧ Forall (λ c, is_Some (yield P (call_result c))) (calls σ)
  ∧ (∀ c e, c ∈ calls σ → tool_error (call_result c) = Some e →
       ∃ k lib, WarnSpadesFailed k lib (ToolFailure e) ∈ log σ)
  ∧ (calls σ ≠ [] → too_many P libs = false ∧ is_Some (split_opts P)).

(** What holds of the state an exception leaves: either line 104 failed
    and nothing was run, or line 113 failed and nothing was run, or the
    last invocation did not go on and [contigs_out] holds what those
    before it added. *)
Definition aborted (P : params) (libs : list Library) (ks : list kmer_size)
    (c0 : bytes) (e : exn) (σ : state) : Prop :=
  (e = AssertionError None ∧ too_many P libs = true ∧ consistent P libs c0 σ)
  ∨ (e = ValueError ∧ too_many P libs = false ∧ split_opts P = None
     ∧ consistent P libs c0 σ)
  ∨ (∃ cs c k,
       calls σ = cs ++ [c]
       ∧ yield P (call_result c) = None
       ∧ e = failure k (call_result c)
       ∧ k ∈ ks
       ∧ consistent P libs c0
           (mkState (files σ) (log σ) cs (snapshots σ) (next_dir σ))).

(** The transcripts file the local variable names is gone. *)
Definition tf_gone (v : locals) (σ : state) : Prop :=
  ∀ p, transcripts_fname v = Some p → is_nonempty_file (files σ) (Some p) = false.

(** [contigs_out] made empty, and nothing else changed. *)
Definition truncated (P : params) (σ : state) : state :=
  mkState (<[User (contigs_out P) := []]> (files σ)) (log σ) (calls σ)
    (snapshots σ) (next_dir σ).

(** The state a run starts in: the files, and no history. *)
Definition initial (fs : gmap path bytes) : state := mkState fs [] [] [] 0.

(** The request [P] with another value of [filter_contigs]. *)
Definition with_filter_contigs (b : bool) (P : params) : params :=
  mkParams (libraries P) (contigs_out P) (contigs_trusted P)
    (contigs_untrusted P) (kmer_sizes P) (mode P) (always_succeed P)
    (max_kmer_sizes P) b (min_contig_len P) (mem_limit_gb P) (threads P)
    (spades_opts P).

(** The request [P] with other k-mer sizes. *)
Definition with_kmer_sizes (ks : option (list kmer_size)) (P : params) : params :=
  mkParams (libraries P) (contigs_out P) (contigs_trusted P)
    (contigs_untrusted P) ks (mode P) (always_succeed P)
    (max_kmer_sizes P) (filter_contigs P) (min_contig_len P) (mem_limit_gb P)
    (threads P) (spades_opts P).

(** The invocation [c] is one the request [P] can make with the libraries
    [libs]: for some k-mer size of the request and some round of the loop
    over the libraries, its arguments are those of lines 102-114. *)
Definition scheduled (P : params) (libs : list Library) (c : call) : Prop :=
  ∃ k lib d fs,
    k ∈ make_seq (kmer_sizes P)
    ∧ lib ∈ lib_rounds P libs
    ∧ call_args c
      = args_of P libs (sanitize_thread_count (threads P)) k lib d fs.

(** The attempts that lines 96 and 99 schedule, in order: every k-mer
    size with every round of the loop over the libraries. *)
Definition jobs (ks : list kmer_size) (rounds : list (option Library))
  : list (kmer_size * option Library) :=
  flat_map (λ k, List.map (pair k) rounds) ks.

Definition plan (P : params) (libs : list Library)
  : list (kmer_size * option Library) :=
  jobs (make_seq (kmer_sizes P)) (lib_rounds P libs).

(** The invocation [c] is that of the attempt [job]: its arguments are
    those of lines 102-114 for this k-mer size and this round. *)
Definition runs_job (P : params) (libs : list Library) (nthreads : Z)
    (job : kmer_size * option Library) (c : call) : Prop :=
  ∃ d fs, call_args c = args_of P libs nthreads job.1 job.2 d fs.

(** Apart from [contigs_out], the files [fs'] are those of [fs], and no
    scratch file has appeared. *)
Definition same_but_out (P : params) (fs fs' : gmap path bytes) : Prop :=
  (∀ s, s ≠ contigs_out P → fs' !! User s = fs !! User s)
  ∧ (∀ d n, fs !! Scratch d n = None → fs' !! Scratch d n = None).

End Program.

(** ** Concrete runs

    A small world to run the program in: a reader and a writer that take
    every line for a record, and assemblers that always succeed, always
    fail, fail at one invocation, or succeed without leaving a file. *)

Module Examples.

Definition bytes_of (s : string) : bytes := String.list_byte_of_string s.

Definition newline : Byte.byte := Byte.x0a.

Fixpoint lines_of (cur c : bytes) : list bytes :=
  match c with
  | [] => match cur with [] => [] | _ => [rev cur] end
  | b :: c' =>
      if Byte.eqb b newline
      then match cur with [] => lines_of [] c' | _ => rev cur :: lines_of [] c' end
      else lines_of (b :: cur) c'
  end.

Definition parse_lines (c : bytes) : list seq_record :=
  List.map (mkSeqRecord "") (lines_of [] c).

Definition write_lines (rs : list seq_record) : bytes :=
  List.concat (List.map (λ r, rec_seq r ++ [newline]) rs).

(** A splitter that takes the whole string for one word, and fails on a
    string that opens a quotation and does not close it. *)
Definition split_words (s : string) : option (list string) :=
  if String.prefix "'" s then None else Some [s].

Definition externals_of (tool : nat → list string → gmap path bytes → tool_result)
  : Externals :=
  {| spades := tool;
     parse_fasta := parse_lines;
     write_fasta := write_lines;
     shlex_split := split_words;
     sanitize_thread_count := default 1;
     dir_name := λ n, "/tmp/spades" +:+ pretty n;
     parse_fasta_nil := eq_refl;
     write_fasta_nil := eq_refl |}.

Definition contigs : bytes := bytes_of "ACGTACGT" ++ [newline] ++ bytes_of "AC" ++ [newline].

Definition good_result : tool_result :=
  mkToolResult None (Some contigs) (Some contigs) (Some contigs).

Definition failed_result : tool_result :=
  mkToolResult (Some "exit status 1") None None None.

Definition silent_result : tool_result := mkToolResult None None None None.

Definition tool_good : nat → list string → gmap path bytes → tool_result :=
  λ _ _ _, good_result.

Definition tool_fail : nat → list string → gmap path bytes → tool_result :=
  λ _ _ _, failed_result.

Definition tool_silent : nat → list string → gmap path bytes → tool_result :=
  λ _ _ _, silent_result.

Definition tool_fail_at (i : nat) : nat → list string → gmap path bytes → tool_result :=
  λ n _ _, if bool_decide (n = i) then failed_result else good_result.

Definition lib_a : Library := mkLibrary (Some "a_1.fq") (Some "a_2.fq") None.

Definition lib_b : Library := mkLibrary (Some "b_1.fq") (Some "b_2.fq") (Some "b_s.fq").

Definition disk : gmap path bytes :=
  <[User "a_1.fq" := bytes_of "@r1"]>
    (<[User "b_1.fq" := bytes_of "@r2"]>
       (<[User "out.fasta" := bytes_of "old"]> ∅)).

Definition request (libs : list Library) (ks : option (list kmer_size))
    (m : string) (tolerant : bool) (most : Z) (shortest : Z) : params :=
  mkParams libs "out.fasta" None None ks m tolerant most false shortest 8 None "".

(** Three k-mer sizes, of which two are enough. *)
Definition rna_three : params :=
  request [lib_a] (Some [Some 21; Some 33; Some 55]) "rna" false 2 0.

(** Two libraries and one k-mer size, in either mode. *)
Definition meta_two (tolerant : bool) (shortest : Z) : params :=
  request [lib_a; lib_b] (Some [Some 21]) "meta" tolerant 1 shortest.

Definition rna_two : params :=
  request [lib_a; lib_b] (Some [Some 21]) "rna" false 1 0.

(** Ten libraries in rna mode. *)
Definition rna_ten (ks : option (list kmer_size)) : params :=
  request (replicate 10 lib_a) ks "rna" false 1 0.

(** A mode that is none, and a library whose reads are not there. *)
Definition bad_mode : params := request [] None "dna" false 1 0.

Definition no_reads : params :=
  request [mkLibrary (Some "missing.fq") None None] None "rna" false 1 0.

(** Two k-mer sizes in rna mode, failures tolerated. *)
Definition rna_tolerant : params :=
  request [lib_a] (Some [Some 21; Some 33]) "rna" true 1 0.

(** Options that do not split, failures tolerated. *)
Definition open_quote : params :=
  mkParams [lib_a; lib_b] "out.fasta" None None (Some [Some 21]) "meta" true 1
    false 0 8 None "'--careful".

(** A library whose forward reads are the file the contigs go to. *)
Definition self_reads : params :=
  request [mkLibrary (Some "out.fasta") (Some "a_2.fq") None] None "rna" false 1 0.

End Examples.

(** ** Facts about the file system *)

Lemma lookup_rmtree (d : nat) (fs : gmap path bytes) (p : path) :
  rmtree d fs !! p = if in_dir d p then None else fs !! p.
Proof.
  unfold rmtree. destruct (in_dir d p) eqn:E.
  - apply map_lookup_filter_None. right. intros c _. simpl. congruence.
  - destruct (fs !! p) as [c|] eqn:F.
    + apply map_lookup_filter_Some. split; [done | exact E].
    + apply map_lookup_filter_None. left. done.
Qed.

Lemma rmtree_insert_scratch d n c (fs : gmap path bytes) :
  rmtree d (<[Scratch d n := c]> fs) = rmtree d fs.
Proof.
  apply map_eq. intros p. rewrite !lookup_rmtree.
  destruct (in_dir d p) eqn:E; [done |].
  rewrite lookup_insert_ne; [done |].
  intros <-. simpl in E. by rewrite bool_decide_eq_true_2 in E.
Qed.

Lemma rmtree_insert_user d s c (fs : gmap path bytes) :
  rmtree d (<[User s := c]> fs) = <[User s := c]> (rmtree d fs).
Proof.
  apply map_eq. intros p. rewrite lookup_rmtree.
  destruct (decide (p = User s)) as [-> | Hne].
  - simpl. by rewrite !lookup_insert_eq.
  - rewrite !lookup_insert_ne by done. by rewrite lookup_rmtree.
Qed.

Lemma rmtree_idemp d (fs : gmap path bytes) :
  rmtree d (rmtree d fs) = rmtree d fs.
Proof.
  apply map_eq. intros p. rewrite !lookup_rmtree. by destruct (in_dir d p).
Qed.

Lemma rmtree_write_opt d n oc (fs : gmap path bytes) :
  rmtree d (write_opt (Scratch d n) oc fs) = rmtree d fs.
Proof. destruct oc; simpl; [apply rmtree_insert_scratch | done]. Qed.

Lemma lookup_rmtree_scratch d n (fs : gmap path bytes) :
  rmtree d fs !! Scratch d n = None.
Proof. rewrite lookup_rmtree. simpl. by rewrite bool_decide_eq_true_2. Qed.

Lemma lookup_rmtree_user d s (fs : gmap path bytes) :
  rmtree d fs !! User s = fs !! User s.
Proof. by rewrite lookup_rmtree. Qed.

Lemma lookup_write_opt_ne p q oc (fs : gmap path bytes) :
  p ≠ q → write_opt p oc fs !! q = fs !! q.
Proof. intros Hne. destruct oc; simpl; [by rewrite lookup_insert_ne | done]. Qed.

Lemma lookup_write_opt_eq p oc (fs : gmap path bytes) :
  fs !! p = None → write_opt p oc fs !! p = oc.
Proof. intros Hn. destruct oc; simpl; [by rewrite lookup_insert_eq | done]. Qed.

Section Facts.
Context `{Externals}.

Lemma rmtree_tool_writes d r (fs : gmap path bytes) :
  rmtree d (tool_writes d r fs) = rmtree d fs.
Proof. unfold tool_writes. by rewrite !rmtree_write_opt. Qed.

Lemma lookup_tool_writes_user d r s (fs : gmap path bytes) :
  tool_writes d r fs !! User s = fs !! User s.
Proof. unfold tool_writes. by rewrite !lookup_write_opt_ne. Qed.

(** In a fresh directory the transcripts file is the one the tool left. *)
Lemma lookup_tool_writes_expected P d r (fs : gmap path bytes) :
  tool_writes d r (rmtree d fs) !! Scratch d (transcripts_name P)
  = expected_out P r.
Proof.
  unfold tool_writes, transcripts_name, expected_out.
  destruct (String.eqb (mode P) "meta").
  - rewrite !lookup_write_opt_ne by discriminate.
    apply lookup_write_opt_eq, lookup_rmtree_scratch.
  - destruct (filter_contigs P); simpl.
    + apply lookup_write_opt_eq.
      rewrite !lookup_write_opt_ne by discriminate.
      apply lookup_rmtree_scratch.
    + rewrite lookup_write_opt_ne by discriminate.
      apply lookup_write_opt_eq.
      rewrite !lookup_write_opt_ne by discriminate.
      apply lookup_rmtree_scratch.
Qed.

(** The cumulative file and the filtered file are none of the tool's. *)
Lemma lookup_tool_writes_cumul d r count (fs : gmap path bytes) :
  tool_writes d r fs !! Scratch d (cumul_name count)
  = fs !! Scratch d (cumul_name count).
Proof. unfold tool_writes, cumul_name. by rewrite !lookup_write_opt_ne by discriminate. Qed.

Lemma cumul_name_ne_transcripts P count : cumul_name count ≠ transcripts_name P.
Proof.
  unfold cumul_name, transcripts_name.
  destruct (String.eqb (mode P) "meta"); [discriminate |].
  destruct (filter_contigs P); discriminate.
Qed.

Lemma cumul_name_ne_over L count count' : cumul_name count ≠ over_name L count'.
Proof. unfold cumul_name, over_name. discriminate. Qed.

Lemma cumul_name_ne_final P count count' : cumul_name count ≠ final_name P count'.
Proof.
  unfold final_name. destruct (negb _).
  - apply cumul_name_ne_over.
  - apply cumul_name_ne_transcripts.
Qed.

End Facts.

(** ** One attempt *)

Section Attempt.
Context `{Externals}.

Ltac unfold_monad :=
  unfold mbind, M_bind, mret, M_ret, raise, get_files, set_files, log_msg,
    record_snapshot, assert_ in *.

Lemma lib_args_loop_ok libs : ∀ start args σ,
  (start + length libs ≤ 9)%nat →
  for_loop lib_args_body (zip (seq start (length libs)) libs) args σ
  = (Ok (args ++ pe_args (files σ) start libs), σ).
Proof.
  induction libs as [| lib libs IH]; intros start args σ Hlen; simpl in *.
  - unfold_monad. by rewrite app_nil_r.
  - unfold mbind at 1. unfold M_bind at 1. unfold lib_args_body at 1. simpl.
    rewrite bool_decide_eq_true_2 by lia. unfold_monad. simpl.
    rewrite IH by lia. by rewrite <- app_assoc.
Qed.

Lemma lib_args_loop_fail libs : ∀ start args σ,
  (start ≤ 9)%nat → (9 < start + length libs)%nat →
  for_loop lib_args_body (zip (seq start (length libs)) libs) args σ
  = (Raise (AssertionError None), σ).
Proof.
  induction libs as [| lib libs IH]; intros start args σ Hs Hlen; simpl in *.
  - lia.
  - unfold mbind at 1. unfold M_bind at 1. unfold lib_args_body at 1. simpl.
    destruct (decide (start < 9)%nat) as [Hlt | Hge].
    + rewrite bool_decide_eq_true_2 by done. unfold_monad. simpl.
      apply IH; lia.
    + rewrite bool_decide_eq_false_2 by done. by unfold_monad.
Qed.

Lemma build_args_eq P libs nthreads k lib d σ :
  build_args P libs nthreads k lib d σ
  = if bool_decide (length (libs_of_attempt P libs lib) ≤ 9)%nat
    then if bool_decide (is_Some (split_opts P))
         then (Ok (args_of P libs nthreads k lib d (files σ)), σ)
         else (Raise ValueError, σ)
    else (Raise (AssertionError None), σ).
Proof.
  unfold build_args, enumerate, args_of, common_args.
  unfold mbind, M_bind. case_bool_decide as Hlen.
  - rewrite lib_args_loop_ok by (simpl; lia).
    destruct (split_opts P) as [opts|].
    + rewrite bool_decide_eq_true_2 by eauto. by unfold_monad.
    + rewrite bool_decide_eq_false_2 by (intros [? ?]; done). by unfold_monad.
  - rewrite lib_args_loop_fail by lia. done.
Qed.

Lemma bind_ok {A B} (m : M A) (f : A → M B) σ a σ' :
  m σ = (Ok a, σ') → (m ≫= f) σ = f a σ'.
Proof. intros E. unfold mbind, M_bind. by rewrite E. Qed.

Lemma bind_raise {A B} (m : M A) (f : A → M B) σ e σ' :
  m σ = (Raise e, σ') → (m ≫= f) σ = (Raise e, σ').
Proof. intros E. unfold mbind, M_bind. by rewrite E. Qed.

Lemma with_tmp_dir_eq {A} (body : nat → M A) σ r σ1 :
  body (next_dir σ)
    (mkState (rmtree (next_dir σ) (files σ)) (log σ) (calls σ) (snapshots σ)
       (S (next_dir σ))) = (r, σ1) →
  with_tmp_dir body σ
  = (r, mkState (rmtree (next_dir σ) (files σ1)) (log σ1) (calls σ1)
          (snapshots σ1) (next_dir σ1)).
Proof. intros E. unfold with_tmp_dir. simpl. by rewrite E. Qed.

Lemma invoke_eq P k lib d args tf σ :
  invoke P k lib d args tf σ
  = let r := spades (length (calls σ)) args (files σ) in
    let fs1 := tool_writes d r (files σ) in
    let cs := calls σ ++ [mkCall args r] in
    match tool_error r with
    | Some e =>
        if always_succeed P
        then (Ok tt, mkState (<[tf := []]> fs1)
                       (log σ ++ [WarnSpadesFailed k lib (ToolFailure e)]) cs
                       (snapshots σ) (next_dir σ))
        else (Raise (ToolFailure e),
              mkState fs1 (log σ) cs (snapshots σ) (next_dir σ))
    | None => (Ok tt, mkState fs1 (log σ) cs (snapshots σ) (next_dir σ))
    end.
Proof.
  unfold invoke, execute. simpl.
  destruct (tool_error _); [| done].
  destruct (always_succeed P); [| done].
  unfold make_empty. by unfold_monad.
Qed.

Lemma check_transcripts_eq P k tf σ :
  check_transcripts P k tf σ
  = match files σ !! tf with
    | Some _ => (Ok tt, σ)
    | None =>
        if always_succeed P
        then (Ok tt, mkState (<[tf := []]> (files σ))
                       (log σ ++ [Warning (missing_msg k)]) (calls σ)
                       (snapshots σ) (next_dir σ))
        else (Raise (RuntimeError (missing_msg k)), σ)
    end.
Proof.
  unfold check_transcripts, isfile, make_empty. unfold_monad. simpl.
  destruct (files σ !! tf) eqn:E.
  - rewrite bool_decide_eq_true_2 by eauto. done.
  - rewrite bool_decide_eq_false_2 by (intros [? ?]; done). simpl.
    by destruct (always_succeed P).
Qed.

Lemma drop_short_eq P d count tf σ t :
  files σ !! tf = Some t →
  drop_short P d count tf σ
  = if negb (min_contig_len P =? 0)
    then (Ok (Scratch d (over_name (min_contig_len P) count)),
          mkState (<[Scratch d (over_name (min_contig_len P) count)
                     := filtered P t]> (files σ))
            (log σ) (calls σ) (snapshots σ) (next_dir σ))
    else (Ok tf, σ).
Proof.
  intros Ht. unfold drop_short, filtered, read_file.
  destruct (negb _); [| done]. unfold_monad. simpl. by rewrite Ht.
Qed.

Lemma accumulate_eq P d count tf σ c0 t :
  files σ !! User (contigs_out P) = Some c0 →
  files σ !! tf = Some t →
  files σ !! Scratch d (cumul_name count) = None →
  tf ≠ Scratch d (cumul_name count) →
  accumulate P d count tf σ
  = (Ok tt,
     mkState (<[User (contigs_out P) := c0 ++ t]>
                (<[Scratch d (cumul_name count) := c0 ++ t]> (files σ)))
       (log σ) (calls σ) (snapshots σ) (next_dir σ)).
Proof.
  intros Hout Htf Hcumul Hne.
  unfold accumulate, concat_files, copyfile, read_all, read_file.
  unfold_monad. simpl. rewrite Hcumul. simpl.
  rewrite lookup_insert_ne by done. rewrite Hout. simpl.
  rewrite lookup_insert_ne by done. rewrite Htf. simpl.
  rewrite lookup_insert_eq. simpl. rewrite app_nil_r.
  by rewrite insert_insert_eq.
Qed.

Lemma merge_transcripts_eq P d v σ c0 t :
  files σ !! User (contigs_out P) = Some c0 →
  files σ !! Scratch d (transcripts_name P) = Some t →
  files σ !! Scratch d (cumul_name (contigs_cumul_count v)) = None →
  ∃ fs',
    merge_transcripts P d v (Scratch d (transcripts_name P)) σ
    = (Ok (mkLocals (contigs_cumul_count v + 1) (kmer_sizes_succeeded v)
             (this_kmer_size_succeeded v
              || bool_decide (0 < length (filtered P t))%nat)
             (Some (Scratch d (final_name P (contigs_cumul_count v))))),
       mkState fs' (log σ) (calls σ)
         (snapshots σ ++ [Some (c0 ++ filtered P t)]) (next_dir σ))
    ∧ rmtree d fs' = <[User (contigs_out P) := c0 ++ filtered P t]> (rmtree d (files σ)).
Proof.
  intros Hout Htf Hcumul. unfold merge_transcripts.
  pose proof (drop_short_eq P d (contigs_cumul_count v) _ σ t Htf) as Hd.
  assert (Hf : filtered P t = if negb (min_contig_len P =? 0)
                              then filtered P t else t).
  { unfold filtered. by destruct (negb _). }
  unfold final_name.
  destruct (negb (min_contig_len P =? 0)) eqn:HL;
    (erewrite bind_ok; [| exact Hd]); clear Hd.
  - erewrite bind_ok.
    2:{ eapply accumulate_eq; simpl.
        - by rewrite lookup_insert_ne.
        - apply lookup_insert_eq.
        - by rewrite lookup_insert_ne.
        - done. }
    eexists. split.
    + unfold_monad. simpl. rewrite lookup_insert_eq.
      rewrite lookup_insert_ne by done. rewrite lookup_insert_ne by done.
      rewrite lookup_insert_eq. reflexivity.
    + rewrite rmtree_insert_user. by rewrite !rmtree_insert_scratch.
  - assert (Hne : Scratch d (transcripts_name P)
                  ≠ Scratch d (cumul_name (contigs_cumul_count v))).
    { intros [= E]. by apply (cumul_name_ne_transcripts P _ (eq_sym E)). }
    erewrite bind_ok; [| by eapply accumulate_eq].
    eexists. split; rewrite Hf.
    + unfold_monad. simpl. rewrite lookup_insert_eq.
      rewrite lookup_insert_ne by done. rewrite lookup_insert_ne by done.
      rewrite Htf. reflexivity.
    + rewrite rmtree_insert_user. by rewrite !rmtree_insert_scratch.
Qed.
Lemma attempt_eq P libs nthreads k lib v c0 σ :
  files σ !! User (contigs_out P) = Some c0 →
  attempt P libs nthreads k lib v σ
  = attempt_result P libs nthreads k lib v c0 σ.
Proof.
  intros Hout. unfold attempt, attempt_result.
  set (d := next_dir σ). set (fs0 := rmtree d (files σ)).
  set (args := args_of P libs nthreads k lib d fs0).
  set (r := spades (length (calls σ)) args fs0).
  set (tf := Scratch d (transcripts_name P)).
  set (fs1 := tool_writes d r fs0).
  assert (Hout1 : fs1 !! User (contigs_out P) = Some c0).
  { unfold fs1, fs0. by rewrite lookup_tool_writes_user, lookup_rmtree_user. }
  assert (Hcumul1 : fs1 !! Scratch d (cumul_name (contigs_cumul_count v)) = None).
  { unfold fs1, fs0. by rewrite lookup_tool_writes_cumul, lookup_rmtree_scratch. }
  assert (Hexp : fs1 !! tf = expected_out P r).
  { apply lookup_tool_writes_expected. }
  assert (Hrm1 : rmtree d fs1 = fs0).
  { unfold fs1, fs0. by rewrite rmtree_tool_writes, rmtree_idemp. }
  assert (Hne : tf ≠ Scratch d (cumul_name (contigs_cumul_count v))).
  { intros [= E]. by apply (cumul_name_ne_transcripts P _ (eq_sym E)). }
  case_bool_decide as Hlen.
  2:{ erewrite with_tmp_dir_eq.
      2:{ erewrite bind_raise; [reflexivity |].
          rewrite build_args_eq. rewrite bool_decide_eq_false_2 by done.
          reflexivity. }
      simpl. fold d fs0. unfold fs0. by rewrite rmtree_idemp. }
  case_bool_decide as Hopts.
  2:{ erewrite with_tmp_dir_eq.
      2:{ erewrite bind_raise; [reflexivity |].
          rewrite build_args_eq. rewrite bool_decide_eq_true_2 by done.
          rewrite bool_decide_eq_false_2 by done.
          reflexivity. }
      simpl. fold d fs0. unfold fs0. by rewrite rmtree_idemp. }
  assert (Hbuild : build_args P libs nthreads k lib d
            (mkState fs0 (log σ) (calls σ) (snapshots σ) (S d))
          = (Ok args, mkState fs0 (log σ) (calls σ) (snapshots σ) (S d))).
  { rewrite build_args_eq. rewrite bool_decide_eq_true_2 by done.
    by rewrite bool_decide_eq_true_2 by done. }
  pose proof (invoke_eq P k (lib_after P libs lib) d args tf
                (mkState fs0 (log σ) (calls σ) (snapshots σ) (S d))) as Hinv.
  simpl in Hinv. fold r fs1 in Hinv.
  unfold yield, failure, warnings.
  destruct (tool_error r) as [e|] eqn:Herr.
  - destruct (always_succeed P) eqn:HAS.
    + edestruct (merge_transcripts_eq P d v
                  (mkState (<[tf := []]> fs1)
                     (log σ ++ [WarnSpadesFailed k (lib_after P libs lib) (ToolFailure e)])
                     (calls σ ++ [mkCall args r]) (snapshots σ) (S d)) c0 [])
        as (fs' & Hm & Hrm); simpl.
      { by rewrite lookup_insert_ne. }
      { apply lookup_insert_eq. }
      { by rewrite lookup_insert_ne. }
      erewrite with_tmp_dir_eq.
      2:{ erewrite bind_ok; [| exact Hbuild].
          erewrite bind_ok; [| exact Hinv].
          erewrite bind_ok.
          2:{ rewrite check_transcripts_eq. cbn [files log calls snapshots next_dir]. rewrite lookup_insert_eq.
              reflexivity. }
          exact Hm. }
      cbn [files log calls snapshots next_dir]. fold d. rewrite Hrm. cbn [files log calls snapshots next_dir]. unfold tf. rewrite rmtree_insert_scratch, Hrm1.
      by destruct (expected_out P r).
    + erewrite with_tmp_dir_eq.
      2:{ erewrite bind_ok; [| exact Hbuild].
          erewrite bind_raise; [reflexivity | exact Hinv]. }
      cbn [files log calls snapshots next_dir]. fold d. rewrite Hrm1. by destruct (expected_out P r).
  - destruct (expected_out P r) as [t|] eqn:Ht.
    + edestruct (merge_transcripts_eq P d v
                  (mkState fs1 (log σ) (calls σ ++ [mkCall args r])
                     (snapshots σ) (S d)) c0 t)
        as (fs' & Hm & Hrm); simpl; try done.
      erewrite with_tmp_dir_eq.
      2:{ erewrite bind_ok; [| exact Hbuild].
          erewrite bind_ok; [| exact Hinv].
          erewrite bind_ok.
          2:{ rewrite check_transcripts_eq. cbn [files log calls snapshots next_dir]. fold d. fold tf. rewrite Hexp.
              reflexivity. }
          exact Hm. }
      cbn [files log calls snapshots next_dir]. fold d. rewrite Hrm. cbn [files log calls snapshots next_dir]. rewrite Hrm1. by rewrite app_nil_r.
    + destruct (always_succeed P) eqn:HAS.
      * edestruct (merge_transcripts_eq P d v
                  (mkState (<[tf := []]> fs1)
                     (log σ ++ [Warning (missing_msg k)])
                     (calls σ ++ [mkCall args r]) (snapshots σ) (S d)) c0 [])
          as (fs' & Hm & Hrm); simpl.
        { by rewrite lookup_insert_ne. }
        { apply lookup_insert_eq. }
        { by rewrite lookup_insert_ne. }
        erewrite with_tmp_dir_eq.
        2:{ erewrite bind_ok; [| exact Hbuild].
            erewrite bind_ok; [| exact Hinv].
            erewrite bind_ok.
            2:{ rewrite check_transcripts_eq. cbn [files log calls snapshots next_dir]. fold d. fold tf. rewrite Hexp, HAS.
                reflexivity. }
            exact Hm. }
        cbn [files log calls snapshots next_dir]. fold d. rewrite Hrm. cbn [files log calls snapshots next_dir]. unfold tf. by rewrite rmtree_insert_scratch, Hrm1.
      * erewrite with_tmp_dir_eq.
        2:{ erewrite bind_ok; [| exact Hbuild].
            erewrite bind_ok; [| exact Hinv].
            erewrite bind_raise; [reflexivity |].
            rewrite check_transcripts_eq. cbn [files log calls snapshots next_dir]. fold d. fold tf. rewrite Hexp, HAS.
            reflexivity. }
        cbn [files log calls snapshots next_dir]. fold d. by rewrite Hrm1.
Qed.

(** An attempt that completes has run the tool once, has appended to
    [contigs_out] the transcripts it went on with, filtered, and has
    stepped the counter. *)
Lemma attempt_appends P libs nthreads k lib v σ c v1 σ1 :
  files σ !! User (contigs_out P) = Some c →
  attempt P libs nthreads k lib v σ = (Ok v1, σ1) →
  ∃ cl t,
    calls σ1 = calls σ ++ [cl]
    ∧ yield P (call_result cl) = Some t
    ∧ files σ1 !! User (contigs_out P) = Some (c ++ filtered P t)
    ∧ transcripts_fname v1
      = Some (Scratch (next_dir σ) (final_name P (contigs_cumul_count v)))
    ∧ contigs_cumul_count v1 = contigs_cumul_count v + 1.
Proof.
  intros Hc Ha.
  rewrite (attempt_eq _ _ _ _ _ _ _ _ Hc) in Ha. unfold attempt_result in Ha.
  case_bool_decide; [| done]. case_bool_decide; [| done].
  destruct (yield P _) as [t|] eqn:Hy; [| done].
  injection Ha as <- <-. eexists _, t. cbn [calls files call_result].
  split; [done |]. split; [exact Hy |]. split; [apply lookup_insert_eq |]. done.
Qed.

(** Lines 139-153 when the short contigs are dropped: the records that are
    long enough go to the scratch file named after the bound and the
    counter, and from there to the end of [contigs_out]. *)
Lemma merge_transcripts_long P d v tf σ c0 t :
  min_contig_len P ≠ 0 →
  files σ !! User (contigs_out P) = Some c0 →
  files σ !! tf = Some t →
  files σ !! Scratch d (cumul_name (contigs_cumul_count v)) = None →
  let long := write_fasta (sans_short (min_contig_len P) (parse_fasta t)) in
  let over := Scratch d (over_name (min_contig_len P) (contigs_cumul_count v)) in
  merge_transcripts P d v tf σ
  = (Ok (mkLocals (contigs_cumul_count v + 1) (kmer_sizes_succeeded v)
           (this_kmer_size_succeeded v || bool_decide (0 < length long)%nat)
           (Some over)),
     mkState (<[User (contigs_out P) := c0 ++ long]>
                (<[Scratch d (cumul_name (contigs_cumul_count v)) := c0 ++ long]>
                   (<[over := long]> (files σ))))
       (log σ) (calls σ) (snapshots σ ++ [Some (c0 ++ long)]) (next_dir σ)).
Proof.
  intros HL Hout Htf Hcumul long over. unfold merge_transcripts.
  pose proof (drop_short_eq P d (contigs_cumul_count v) _ σ t Htf) as Hd.
  assert (Hnz : negb (min_contig_len P =? 0) = true).
  { by apply negb_true_iff, Z.eqb_neq. }
  unfold filtered in Hd. rewrite Hnz in Hd. fold long over in Hd.
  assert (Hne : over ≠ Scratch d (cumul_name (contigs_cumul_count v))).
  { intros E.
    apply (cumul_name_ne_over (min_contig_len P) (contigs_cumul_count v)
             (contigs_cumul_count v)).
    unfold over in E. congruence. }
  erewrite bind_ok; [| exact Hd].
  erewrite bind_ok.
  2:{ eapply accumulate_eq; cbn [files].
      - by rewrite lookup_insert_ne.
      - apply lookup_insert_eq.
      - by rewrite lookup_insert_ne.
      - done. }
  unfold_monad. simpl.
  rewrite lookup_insert_eq.
  rewrite lookup_insert_ne by done. rewrite lookup_insert_ne by done.
  rewrite lookup_insert_eq. reflexivity.
Qed.
End Attempt.

(** ** The loops *)

Section Loops.
Context `{Externals}.

Lemma merged_app P cs cs' : merged P (cs ++ cs') = merged P cs ++ merged P cs'.
Proof. unfold merged. by rewrite List.map_app, List.concat_app. Qed.

Lemma merged_snoc P cs c : merged P (cs ++ [c]) = merged P cs ++ contribution P c.
Proof. rewrite merged_app. unfold merged. simpl. by rewrite app_nil_r. Qed.

Lemma snaps_of_snoc P c0 cs c :
  snaps_of P c0 (cs ++ [c]) = snaps_of P c0 cs ++ [Some (c0 ++ merged P (cs ++ [c]))].
Proof.
  unfold snaps_of. rewrite length_app. simpl.
  rewrite seq_app, List.map_app. simpl. f_equal.
  - apply List.map_ext_in. intros n Hn. apply in_seq in Hn.
    f_equal. f_equal. rewrite take_app_le by lia. done.
  - do 2 f_equal.
    rewrite take_ge; [done |]. rewrite length_app. simpl. lia.
Qed.

Lemma lookup_snaps_of P c0 cs (N : nat) s :
  snaps_of P c0 cs !! N = Some s →
  (N < length cs)%nat ∧ s = Some (c0 ++ merged P (take (S N) cs)).
Proof.
  unfold snaps_of. intros Hl.
  apply list_lookup_fmap_Some in Hl as (n & -> & Hn).
  apply lookup_seq in Hn as [-> Hlt]. done.
Qed.

Lemma length_snaps_of P c0 cs : length (snaps_of P c0 cs) = length cs.
Proof. unfold snaps_of. by rewrite length_map, length_seq. Qed.

Lemma libs_of_attempt_length P libs lib :
  too_many P libs = false →
  (length (libs_of_attempt P libs lib) ≤ 9)%nat.
Proof.
  unfold too_many, libs_of_attempt.
  destruct (String.eqb (mode P) "rna"); simpl.
  - intros Hb. apply bool_decide_eq_false in Hb. lia.
  - intros _. destruct lib; simpl; lia.
Qed.

Lemma libs_of_attempt_too_many P libs lib :
  ¬ (length (libs_of_attempt P libs lib) ≤ 9)%nat → too_many P libs = true.
Proof.
  intros Hlen. destruct (too_many P libs) eqn:E; [done |].
  exfalso. apply Hlen. by apply libs_of_attempt_length.
Qed.

Lemma consistent_frame P libs c0 σ fs' nd' :
  fs' !! User (contigs_out P) = files σ !! User (contigs_out P) →
  consistent P libs c0 σ →
  consistent P libs c0 (mkState fs' (log σ) (calls σ) (snapshots σ) nd').
Proof. intros Hfs (I1 & I2 & I3 & I4 & I5). unfold consistent. simpl. rewrite Hfs. done. Qed.

Lemma attempt_step P libs ks c0 nthreads k lib v σ :
  k ∈ ks →
  consistent P libs c0 σ →
  match attempt P libs nthreads k lib v σ with
  | (Ok v', σ') =>
      consistent P libs c0 σ' ∧ tf_gone v' σ' ∧ is_Some (transcripts_fname v')
      ∧ too_many P libs = false
  | (Raise e, σ') => aborted P libs ks c0 e σ'
  end.
Proof.
  intros Hk Hc. pose proof Hc as (I1 & I2 & I3 & I4 & I5).
  rewrite (attempt_eq _ _ _ _ _ _ _ _ I1). unfold attempt_result.
  case_bool_decide as Hlen.
  2:{ left. split; [done |]. split; [by eapply libs_of_attempt_too_many |].
      apply consistent_frame; [apply lookup_rmtree_user | done]. }
  set (d := next_dir σ). set (fs0 := rmtree d (files σ)).
  set (args := args_of P libs nthreads k lib d fs0).
  set (r := spades (length (calls σ)) args fs0).
  assert (Hfew : too_many P libs = false).
  { unfold too_many, libs_of_attempt in *.
    destruct (String.eqb (mode P) "rna"); simpl; [| done].
    apply bool_decide_eq_false. lia. }
  case_bool_decide as Hopts.
  2:{ right. left. split; [done |]. split; [done |]. split.
      - destruct (split_opts P); [| done]. exfalso. apply Hopts. eauto.
      - apply consistent_frame; [apply lookup_rmtree_user | done]. }
  destruct (yield P r) as [t|] eqn:Hy.
  - split; [| split; [| split; [eauto | done]]].
    + unfold consistent. simpl. split; [| split; [| split; [| split]]].
      * rewrite lookup_insert_eq. rewrite merged_snoc. unfold contribution.
        simpl. fold d fs0 args r. by rewrite Hy, app_assoc.
      * rewrite snaps_of_snoc, merged_snoc, I2. unfold contribution. simpl.
        fold d fs0 args r. by rewrite Hy, app_assoc.
      * apply Forall_app. split; [done |]. apply Forall_singleton. simpl.
        fold d fs0 args r. rewrite Hy. eauto.
      * intros c e Hin He. apply elem_of_app in Hin as [Hin | Hin].
        -- destruct (I4 c e Hin He) as (k' & lib' & Hw).
           exists k', lib'. apply elem_of_app. by left.
        -- apply list_elem_of_singleton in Hin as ->. simpl in He.
           fold d fs0 args r in He.
           exists k, (lib_after P libs lib). apply elem_of_app. right.
           unfold warnings. rewrite He. apply list_elem_of_singleton. done.
      * done.
    + intros p [= <-]. simpl. rewrite lookup_insert_ne by done.
      unfold fs0. by rewrite lookup_rmtree_scratch.
  - right. right. exists (calls σ), (mkCall args r), k. simpl.
    split; [done |]. split; [done |]. split; [done |]. split; [done |].
    apply consistent_frame; [apply lookup_rmtree_user | done].
Qed.

Lemma for_loop_inv {A L} (I : L → state → Prop) (R : exn → state → Prop)
    (body : A → L → M (control * L)) xs :
  (∀ x v σ, x ∈ xs → I v σ →
     match body x v σ with
     | (Ok cv, σ') => I cv.2 σ'
     | (Raise e, σ') => R e σ'
     end) →
  ∀ v σ, I v σ →
    match for_loop body xs v σ with
    | (Ok v', σ') => I v' σ'
    | (Raise e, σ') => R e σ'
    end.
Proof.
  induction xs as [| x xs IH]; intros Hbody v σ Hi; simpl.
  - done.
  - unfold mbind, M_bind.
    pose proof (Hbody x v σ (list_elem_of_here _ _) Hi) as Hx.
    destruct (body x v σ) as [[[c v'] | e] σ']; [| done]. simpl in *.
    destruct c.
    + apply IH; [| done]. intros y v0 σ0 Hy. apply Hbody. by right.
    + done.
Qed.

Lemma lib_loop_step P libs ks c0 nthreads k rounds v σ :
  k ∈ ks → rounds ≠ [] →
  consistent P libs c0 σ →
  match lib_loop P libs nthreads k rounds v σ with
  | (Ok v', σ') =>
      consistent P libs c0 σ' ∧ tf_gone v' σ' ∧ is_Some (transcripts_fname v')
      ∧ too_many P libs = false
  | (Raise e, σ') => aborted P libs ks c0 e σ'
  end.
Proof.
  intros Hk Hne Hc. unfold lib_loop. destruct rounds as [| lib rounds]; [done |]. simpl.
  unfold mbind at 1. unfold M_bind at 1.
  unfold mbind at 1. unfold M_bind at 1.
  pose proof (attempt_step P libs ks c0 nthreads k lib v σ Hk Hc) as Hs.
  destruct (attempt P libs nthreads k lib v σ) as [[v1 | e] σ1]; [| done].
  simpl.
  apply (for_loop_inv
           (λ v σ, consistent P libs c0 σ ∧ tf_gone v σ
                   ∧ is_Some (transcripts_fname v) ∧ too_many P libs = false)
           (aborted P libs ks c0)); [| done].
  intros lib' v' σ' _ (Hc' & _). unfold mbind, M_bind.
  pose proof (attempt_step P libs ks c0 nthreads k lib' v' σ' Hk Hc') as Hs'.
  by destruct (attempt P libs nthreads k lib' v' σ') as [[v2 | e] σ2].
Qed.

Lemma lib_rounds_nonempty P libs : libs ≠ [] → lib_rounds P libs ≠ [].
Proof.
  unfold lib_rounds. destruct (String.eqb (mode P) "meta"); [| done].
  by destruct libs.
Qed.

Lemma kmer_body_step P libs ks c0 nthreads k v σ :
  k ∈ ks → libs ≠ [] →
  consistent P libs c0 σ →
  match kmer_body P libs nthreads k v σ with
  | (Ok cv, σ') => cv.1 = Continue ∧ consistent P libs c0 σ'
  | (Raise e, σ') => aborted P libs ks c0 e σ'
  end.
Proof.
  intros Hk Hne Hc. unfold kmer_body.
  unfold mbind at 1. unfold M_bind at 1.
  match goal with |- context [lib_loop P libs nthreads k ?r ?v0 σ] =>
    pose proof (lib_loop_step P libs ks c0 nthreads k r v0 σ Hk
                  (lib_rounds_nonempty P libs Hne) Hc) as Hs;
    destruct (lib_loop P libs nthreads k r v0 σ) as [[v1 | e] σ1]
  end; [| done].
  destruct Hs as (Hc1 & Hgone & [tf Htf] & _).
  rewrite Htf. unfold mbind, M_bind, get_files. simpl.
  specialize (Hgone tf Htf). simpl in Hgone. rewrite Hgone. simpl. done.
Qed.

Lemma consistent_log P libs c0 σ e :
  consistent P libs c0 σ →
  consistent P libs c0
    (mkState (files σ) (log σ ++ [e]) (calls σ) (snapshots σ) (next_dir σ)).
Proof.
  intros (I1 & I2 & I3 & I4 & I5). unfold consistent. simpl.
  split; [done |]. split; [done |]. split; [done |]. split; [| done].
  intros c e' Hin He. destruct (I4 c e' Hin He) as (k & lib & Hw).
  exists k, lib. apply elem_of_app. by left.
Qed.

Lemma run_kmers_step P libs c0 nthreads σ :
  libs ≠ [] →
  consistent P libs c0 σ →
  match run_kmers P libs nthreads σ with
  | (Ok _, σ') => consistent P libs c0 σ'
  | (Raise e, σ') => aborted P libs (make_seq (kmer_sizes P)) c0 e σ'
  end.
Proof.
  intros Hne Hc. unfold run_kmers.
  unfold mbind at 1. unfold M_bind at 1. unfold log_msg at 1.
  unfold mbind at 1. unfold M_bind at 1.
  match goal with |- context [for_loop ?b ?r ?v0 ?σ0] =>
    pose proof (for_loop_inv (λ (_ : locals) σ, consistent P libs c0 σ)
                  (aborted P libs (make_seq (kmer_sizes P)) c0)
                  b r) as Hloop;
    specialize (Hloop) ;
    assert (Hrun := λ Hb, Hloop Hb v0 σ0 (consistent_log _ _ _ _ _ Hc));
    destruct (for_loop b r v0 σ0) as [[v1 | e] σ1]
  end; simpl; apply Hrun; clear Hrun Hloop.
  all: intros k v σ' Hk Hc';
    pose proof (kmer_body_step P libs _ c0 nthreads k v σ' Hk Hne Hc') as Hs;
    destruct (kmer_body P libs nthreads k v σ') as [[cv | e'] σ2]; [| done];
    by destruct Hs.
Qed.

Lemma assemble_run P fs :
  valid_mode (mode P) = true →
  match assemble P (initial fs) with
  | (Ok _, σ') =>
      consistent P (qualifying (<[User (contigs_out P) := []]> fs) (libraries P))
        [] σ'
  | (Raise e, σ') =>
      aborted P (qualifying (<[User (contigs_out P) := []]> fs) (libraries P))
        (make_seq (kmer_sizes P)) [] e σ'
  end.
Proof.
  intros Hmode. unfold assemble, assert_. rewrite Hmode.
  unfold mbind at 1. unfold M_bind at 1. simpl.
  unfold assemble_checked, make_empty, assemble_libs.
  unfold mbind at 1. unfold M_bind at 1. simpl.
  unfold mbind at 1. unfold M_bind at 1. simpl.
  set (libs := qualifying _ _).
  assert (Hc0 : ∀ lg, consistent P libs []
            (mkState (<[User (contigs_out P) := []]> fs) lg [] [] 0)).
  { intros lg. unfold consistent. simpl. rewrite lookup_insert_eq.
    split; [done |]. split; [done |]. split; [done |].
    split; [| done]. intros c e Hin. by apply elem_of_nil in Hin. }
  destruct libs as [| l libs'] eqn:Hlibs.
  - unfold log_msg. simpl. apply Hc0.
  - apply (run_kmers_step P (l :: libs')); [done | apply Hc0].
Qed.

End Loops.

(** ** The whole call *)

Section Run.
Context `{Externals}.

Lemma assemble_invalid P σ :
  valid_mode (mode P) = false →
  assemble P σ
  = (Raise (AssertionError (Some ("Invalid SPAdes mode: " +:+ mode P))), σ).
Proof. intros Hm. unfold assemble, assert_. rewrite Hm. done. Qed.

Lemma assemble_valid P σ :
  valid_mode (mode P) = true →
  assemble P σ = assemble_libs P (truncated P σ).
Proof.
  intros Hm. unfold assemble, assert_. rewrite Hm.
  unfold assemble_checked, make_empty, truncated.
  unfold mbind, M_bind, mret, M_ret, get_files, set_files. done.
Qed.

Lemma is_nonempty_file_truncate (fs : gmap path bytes) p f :
  is_nonempty_file (<[p := []]> fs) f = true → is_nonempty_file fs f = true.
Proof.
  unfold is_nonempty_file. destruct f as [q|]; [| done].
  destruct (decide (p = q)) as [-> | Hne].
  - rewrite lookup_insert_eq. simpl. rewrite andb_false_r. done.
  - by rewrite lookup_insert_ne.
Qed.

Lemma qualifying_truncate (fs : gmap path bytes) p libs :
  qualifying fs libs = [] → qualifying (<[p := []]> fs) libs = [].
Proof.
  unfold qualifying. induction libs as [| l libs IH]; simpl; [done |].
  destruct (is_nonempty_file fs _) eqn:E; [done |]. intros Hq.
  destruct (is_nonempty_file (<[p := []]> fs) _) eqn:E'.
  - apply is_nonempty_file_truncate in E'. congruence.
  - by apply IH.
Qed.

Lemma filtered_nil P : filtered P [] = [].
Proof.
  unfold filtered. destruct (negb _); [| done].
  rewrite parse_fasta_nil. simpl. apply write_fasta_nil.
Qed.

(** What a run from [initial fs] leaves, whether it returns or raises. *)
Lemma assemble_final P fs :
  valid_mode (mode P) = true →
  let σ' := (assemble P (initial fs)).2 in
  let done_ := take (length (snapshots σ')) (calls σ') in
  files σ' !! User (contigs_out P) = Some (merged P done_)
  ∧ snapshots σ' = snaps_of P [] done_
  ∧ Forall (λ c, is_Some (yield P (call_result c))) done_.
Proof.
  intros Hm. pose proof (assemble_run P fs Hm) as Hrun.
  destruct (assemble P (initial fs)) as [[[] | e] σ']; simpl.
  - destruct Hrun as (I1 & I2 & I3 & _). rewrite I2, length_snaps_of, firstn_all.
    done.
  - destruct Hrun as [(_ & _ & I1 & I2 & I3 & _)
                       | [(_ & _ & _ & I1 & I2 & I3 & _)
                         | (cs & c & k & Hcs & _ & _ & _ & I1 & I2 & I3 & _)]].
    + rewrite I2, length_snaps_of, firstn_all. done.
    + rewrite I2, length_snaps_of, firstn_all. done.
    + simpl in *. rewrite I2, length_snaps_of, Hcs.
      rewrite take_app_length. done.
Qed.


Lemma lookup_snapshot_run P fs (N : nat) s :
  snapshots (assemble P (initial fs)).2 !! N = Some s →
  (N < length (calls (assemble P (initial fs)).2))%nat
  ∧ s = Some (merged P (take (S N) (calls (assemble P (initial fs)).2))).
Proof.
  destruct (valid_mode (mode P)) eqn:Hm.
  - pose proof (assemble_final P fs Hm) as (_ & Hs & _). simpl in Hs.
    set (σ' := (assemble P (initial fs)).2) in *. intros Hl.
    rewrite Hs in Hl. apply lookup_snaps_of in Hl as [Hlt ->].
    rewrite length_take in Hlt. split; [lia |]. simpl.
    do 2 f_equal. rewrite take_take. f_equal. lia.
  - rewrite assemble_invalid by done. simpl. done.
Qed.

(** C5, amended: when the mode is valid and no library has a forward-reads
    file that exists and is non-empty, [assemble] logs the warning, runs
    no external process, and returns normally leaving [contigs_out]
    existing and empty. *)
Theorem no_library_no_run P σ :
  valid_mode (mode P) = true →
  qualifying (files σ) (libraries P) = [] →
  assemble P σ
  = (Ok tt,
     mkState (<[User (contigs_out P) := []]> (files σ))
       (log σ ++ [WarnNoLibraries]) (calls σ) (snapshots σ) (next_dir σ)).
Proof.
  intros Hm Hq. rewrite assemble_valid by done.
  unfold assemble_libs, truncated, mbind, M_bind, get_files. simpl.
  by rewrite qualifying_truncate.
Qed.

(** C10: with a valid mode [assemble] is the rest of the call run on the
    state where [contigs_out] is already made empty, before the libraries
    are filtered and before any attempt; what [contigs_out] held before the
    call has no influence on the run, and the result is built up from
    empty: it is what the completed attempts added, in order. *)
Theorem contigs_out_truncated_first P σ :
  valid_mode (mode P) = true →
  assemble P σ = assemble_libs P (truncated P σ)
  ∧ (∀ fs', (∀ p, p ≠ User (contigs_out P) → fs' !! p = files σ !! p) →
       assemble P (mkState fs' (log σ) (calls σ) (snapshots σ) (next_dir σ))
       = assemble P σ)
  ∧ (∀ fs, let σ' := (assemble P (initial fs)).2 in
       files σ' !! User (contigs_out P)
       = Some (merged P (take (length (snapshots σ')) (calls σ')))).
Proof.
  intros Hm. split; [by apply assemble_valid |]. split.
  - intros fs' Hfs. rewrite !assemble_valid by done. f_equal.
    unfold truncated. simpl. f_equal. apply map_eq. intros p.
    destruct (decide (p = User (contigs_out P))) as [-> | Hne].
    + by rewrite !lookup_insert_eq.
    + rewrite !lookup_insert_ne by done. by apply Hfs.
  - intros fs. by apply assemble_final.
Qed.

(** C2: after the N-th completed attempt [contigs_out] holds what it held
    before the first attempt followed by what the first N attempts added,
    in order; this holds of the loop for any earlier contents and of the
    whole call; each attempt only appends, through the cumulative scratch
    file named after the counter, which is then copied over
    [contigs_out]. *)
Theorem contigs_out_accumulates P l libs nthreads σ c0 :
  files σ !! User (contigs_out P) = Some c0 →
  calls σ = [] →
  snapshots σ = [] →
  let σ' := (run_kmers P (l :: libs) nthreads σ).2 in
  (∀ (N : nat) s, snapshots σ' !! N = Some s →
     s = Some (c0 ++ merged P (take (S N) (calls σ'))))
  ∧ (∀ fs (N : nat) s, snapshots (assemble P (initial fs)).2 !! N = Some s →
       s = Some (merged P (take (S N) (calls (assemble P (initial fs)).2))))
  ∧ (∀ k lib v σ0 c v1 σ1,
       files σ0 !! User (contigs_out P) = Some c →
       attempt P (l :: libs) nthreads k lib v σ0 = (Ok v1, σ1) →
       ∃ cl, calls σ1 = calls σ0 ++ [cl]
             ∧ files σ1 !! User (contigs_out P) = Some (c ++ contribution P cl)
             ∧ snapshots σ1 = snapshots σ0 ++ [Some (c ++ contribution P cl)])
  ∧ (∀ d count tf σ0 c t,
       files σ0 !! User (contigs_out P) = Some c →
       files σ0 !! tf = Some t →
       files σ0 !! Scratch d (cumul_name count) = None →
       tf ≠ Scratch d (cumul_name count) →
       accumulate P d count tf σ0
       = (Ok tt,
          mkState (<[User (contigs_out P) := c ++ t]>
                     (<[Scratch d (cumul_name count) := c ++ t]> (files σ0)))
            (log σ0) (calls σ0) (snapshots σ0) (next_dir σ0))).
Proof.
  intros Hout Hcalls Hsnaps σ'.
  split; [| split; [| split]].
  - assert (Hc : consistent P (l :: libs) c0 σ).
    { unfold consistent. rewrite Hcalls, Hsnaps, Hout. simpl.
      rewrite app_nil_r. repeat split; try done.
      intros c e Hin. by apply elem_of_nil in Hin. }
    pose proof (run_kmers_step P (l :: libs) c0 nthreads σ ltac:(done) Hc) as Hrun.
    subst σ'. destruct (run_kmers P (l :: libs) nthreads σ) as [[[] | e] σ1].
    + simpl. destruct Hrun as (_ & I2 & _). intros N s Hl.
      rewrite I2 in Hl. by apply lookup_snaps_of in Hl as [_ ->].
    + simpl. intros N s Hl.
      destruct Hrun as [(_ & _ & _ & I2 & _)
                       | [(_ & _ & _ & _ & I2 & _)
                         | (cs & c & k & Hcs & _ & _ & _ & _ & I2 & _)]].
      * rewrite I2 in Hl. by apply lookup_snaps_of in Hl as [_ ->].
      * rewrite I2 in Hl. by apply lookup_snaps_of in Hl as [_ ->].
      * simpl in I2. rewrite I2 in Hl. apply lookup_snaps_of in Hl as [Hlt ->].
        rewrite Hcs. rewrite take_app_le by lia. done.
  - intros fs N s Hl. by apply lookup_snapshot_run in Hl as [_ ->].
  - intros k lib v σ0 c v1 σ1 Hc Ha.
    rewrite (attempt_eq _ _ _ _ _ _ _ _ Hc) in Ha. unfold attempt_result in Ha.
    case_bool_decide; [| done]. case_bool_decide; [| done].
    destruct (yield P _) as [t|] eqn:Hy; [| done].
    injection Ha as <- <-. eexists. simpl. split; [done |].
    unfold contribution. simpl. rewrite Hy. simpl.
    by rewrite lookup_insert_eq.
  - intros. by apply accumulate_eq.
Qed.

Lemma yield_strict P r :
  always_succeed P = false →
  yield P r = if tool_ok P r then expected_out P r else None.
Proof.
  intros HAS. unfold yield, tool_ok. rewrite HAS.
  destruct (tool_error r); [done |]. by destruct (expected_out P r).
Qed.

Lemma yield_tolerant P r :
  always_succeed P = true →
  yield P r = if tool_ok P r then expected_out P r else Some [].
Proof.
  intros HAS. unfold yield, tool_ok. rewrite HAS.
  destruct (tool_error r); [done |]. by destruct (expected_out P r).
Qed.

Lemma yield_tolerant_Some P r : always_succeed P = true → yield P r ≠ None.
Proof.
  intros HAS. rewrite yield_tolerant by done.
  destruct (tool_ok P r) eqn:E; [| done].
  unfold tool_ok in E. destruct (tool_error r); [done |].
  by destruct (expected_out P r).
Qed.

(** C3: without [always_succeed], when an invocation fails or leaves no
    transcripts file, [assemble] raises (the tool's failure, or the runtime
    error naming the k-mer size), that invocation is the last one, and
    [contigs_out] holds what the attempts before it added. *)
Theorem fatal_failure_stops_the_run P fs (i : nat) c :
  always_succeed P = false →
  calls (assemble P (initial fs)).2 !! i = Some c →
  tool_ok P (call_result c) = false →
  let run := assemble P (initial fs) in
  (∃ k, k ∈ make_seq (kmer_sizes P) ∧ run.1 = Raise (failure k (call_result c)))
  ∧ length (calls run.2) = S i
  ∧ files run.2 !! User (contigs_out P) = Some (merged P (take i (calls run.2)))
  ∧ snapshots run.2 = snaps_of P [] (take i (calls run.2))
  ∧ Forall (λ c', tool_ok P (call_result c') = true) (take i (calls run.2)).
Proof.
  intros HAS Hi Hbad run. subst run.
  assert (Hno : ∀ cs, Forall (λ c, is_Some (yield P (call_result c))) cs →
                 Forall (λ c', tool_ok P (call_result c') = true) cs).
  { intros cs Hall. eapply Forall_impl; [exact Hall |]. intros c' [t Ht].
    rewrite yield_strict in Ht by done.
    by destruct (tool_ok P (call_result c')). }
  assert (Hnot : ∀ cs, Forall (λ c, is_Some (yield P (call_result c))) cs →
                 c ∈ cs → False).
  { intros cs Hall Hin. apply Hno in Hall.
    rewrite Forall_forall in Hall. specialize (Hall c Hin). congruence. }
  destruct (valid_mode (mode P)) eqn:Hm.
  2:{ rewrite assemble_invalid in Hi by done. done. }
  pose proof (assemble_run P fs Hm) as Hrun.
  destruct (assemble P (initial fs)) as [[[] | e] σ']; simpl in *.
  - destruct Hrun as (_ & _ & I3 & _). exfalso.
    eapply Hnot; [exact I3 |]. by eapply list_elem_of_lookup_2.
  - destruct Hrun as [(_ & _ & _ & _ & I3 & _)
                     | [(_ & _ & _ & _ & _ & I3 & _)
                       | (cs & c' & k & Hcs & Hy & -> & Hk & I1 & I2 & I3 & _)]].
    + exfalso. eapply Hnot; [exact I3 |]. by eapply list_elem_of_lookup_2.
    + exfalso. eapply Hnot; [exact I3 |]. by eapply list_elem_of_lookup_2.
    + simpl in *. rewrite Hcs in Hi.
      destruct (decide (i < length cs)%nat) as [Hlt | Hge].
      { exfalso. rewrite lookup_app_l in Hi by done.
        eapply Hnot; [exact I3 |]. by eapply list_elem_of_lookup_2. }
      pose proof (lookup_lt_Some _ _ _ Hi) as Hlen.
      rewrite length_app in Hlen. simpl in Hlen.
      assert (i = length cs) as -> by lia.
      rewrite list_lookup_middle in Hi by done. injection Hi as <-.
      rewrite Hcs, length_app, take_app_length. simpl.
      split; [by exists k |]. split; [lia |]. split; [done |].
      split; [done |]. by apply Hno.
Qed.

(** Under [always_succeed] an exception leaves only an attempt that ran
    nothing: its arguments could not be built. *)
Lemma aborted_tolerant P libs ks c0 e σ :
  always_succeed P = true →
  aborted P libs ks c0 e σ →
  calls σ = []
  ∧ (e = AssertionError None ∧ too_many P libs = true
     ∨ e = ValueError ∧ too_many P libs = false ∧ split_opts P = None).
Proof.
  intros HAS [(-> & Hmany & _ & _ & _ & _ & I5)
             | [(-> & Hfew & Hno & _ & _ & _ & _ & I5)
               | (cs & c & k & _ & Hy & _)]].
  - split; [| by left]. destruct (calls σ); [done |].
    destruct I5 as [Hc _]; [done |]. congruence.
  - split; [| by right]. destruct (calls σ); [done |].
    destruct I5 as [_ [? Hc]]; [done |]. congruence.
  - by apply yield_tolerant_Some in Hy.
Qed.

Lemma elem_of_sans_short L rs r :
  r ∈ sans_short L rs ↔ r ∈ rs ∧ L ≤ seq_len r.
Proof.
  unfold sans_short. rewrite !list_elem_of_In, filter_In.
  rewrite Z.geb_le. done.
Qed.

Lemma merged_long_eq P cs : 0 < min_contig_len P → merged P cs = merged_long P cs.
Proof.
  intros HL. unfold merged, merged_long. f_equal. apply List.map_ext.
  intros c. unfold contribution, filtered.
  destruct (min_contig_len P =? 0) eqn:E; [| done].
  apply Z.eqb_eq in E. lia.
Qed.

(** C6: with a minimal contig length [L > 0] every attempt adds exactly
    the records of its transcripts of length at least [L], written anew
    to the scratch file named after [L] and the attempt counter and
    appended from there: at the end of every attempt, and at the end of
    the call, [contigs_out] is made of those records only. *)
Theorem short_contigs_dropped P fs :
  0 < min_contig_len P →
  let L := min_contig_len P in
  let run := assemble P (initial fs) in
  (∀ rs r, r ∈ sans_short L rs ↔ r ∈ rs ∧ L ≤ seq_len r)
  ∧ (∀ (N : nat) s, snapshots run.2 !! N = Some s →
       s = Some (merged_long P (take (S N) (calls run.2))))
  ∧ (valid_mode (mode P) = true →
       files run.2 !! User (contigs_out P)
       = Some (merged_long P (take (length (snapshots run.2)) (calls run.2))))
  ∧ (∀ d count tf σ t,
       files σ !! tf = Some t →
       drop_short P d count tf σ
       = (Ok (Scratch d (over_name L count)),
          mkState (<[Scratch d (over_name L count)
                     := write_fasta (sans_short L (parse_fasta t))]> (files σ))
            (log σ) (calls σ) (snapshots σ) (next_dir σ)))
  ∧ (∀ d v tf σ c0 t,
       files σ !! User (contigs_out P) = Some c0 →
       files σ !! tf = Some t →
       files σ !! Scratch d (cumul_name (contigs_cumul_count v)) = None →
       let long := write_fasta (sans_short L (parse_fasta t)) in
       let over := Scratch d (over_name L (contigs_cumul_count v)) in
       merge_transcripts P d v tf σ
       = (Ok (mkLocals (contigs_cumul_count v + 1) (kmer_sizes_succeeded v)
                (this_kmer_size_succeeded v || bool_decide (0 < length long)%nat)
                (Some over)),
          mkState (<[User (contigs_out P) := c0 ++ long]>
                     (<[Scratch d (cumul_name (contigs_cumul_count v)) := c0 ++ long]>
                        (<[over := long]> (files σ))))
            (log σ) (calls σ) (snapshots σ ++ [Some (c0 ++ long)]) (next_dir σ)))
  ∧ (∀ libs nthreads k lib v σ c0 v1 σ1,
       files σ !! User (contigs_out P) = Some c0 →
       attempt P libs nthreads k lib v σ = (Ok v1, σ1) →
       ∃ cl t,
         calls σ1 = calls σ ++ [cl]
         ∧ yield P (call_result cl) = Some t
         ∧ files σ1 !! User (contigs_out P)
           = Some (c0 ++ write_fasta (sans_short L (parse_fasta t)))
         ∧ transcripts_fname v1
           = Some (Scratch (next_dir σ) (over_name L (contigs_cumul_count v)))
         ∧ contigs_cumul_count v1 = contigs_cumul_count v + 1).
Proof.
  intros HL L run. subst L run.
  assert (Hnz : negb (min_contig_len P =? 0) = true).
  { apply negb_true_iff, Z.eqb_neq. lia. }
  split; [apply elem_of_sans_short |]. split; [| split; [| split; [| split]]].
  - intros N s Hl. apply lookup_snapshot_run in Hl as [_ ->].
    by rewrite merged_long_eq.
  - intros Hm. pose proof (assemble_final P fs Hm) as [Hf _]. simpl in Hf.
    by rewrite Hf, merged_long_eq.
  - intros d count tf σ t Ht. rewrite (drop_short_eq _ _ _ _ _ _ Ht).
    unfold filtered. by rewrite Hnz.
  - intros d v tf σ c0 t Hout Htf Hcumul.
    apply merge_transcripts_long; [lia | done | done | done].
  - intros libs nthreads k lib v σ c0 v1 σ1 Hout Ha.
    destruct (attempt_appends _ _ _ _ _ _ _ _ _ _ Hout Ha)
      as (cl & t & Hcalls & Hy & Hfiles & Htf & Hcount).
    exists cl, t. unfold filtered, final_name in *. rewrite Hnz in *. done.
Qed.

(** C7: when the invocation reports success and the transcripts file is
    not there, the attempt, under [always_succeed], logs a warning, makes
    the file empty and adds nothing; otherwise it raises a runtime error,
    different from the tool's failure, whose message ends with the k-mer
    size.  The invocation is made when [spades_opts] is empty or splits
    into words; when it does not split, the attempt raises the error of
    [shlex.split] and runs nothing. *)
Theorem missing_transcripts_detected P libs nthreads k lib v σ c0 :
  files σ !! User (contigs_out P) = Some c0 →
  too_many P libs = false →
  let fs0 := rmtree (next_dir σ) (files σ) in
  let args := args_of P libs nthreads k lib (next_dir σ) fs0 in
  let r := spades (length (calls σ)) args fs0 in
  tool_error r = None →
  expected_out P r = None →
  (is_Some (split_opts P) → always_succeed P = true →
     ∃ v1 σ1, attempt P libs nthreads k lib v σ = (Ok v1, σ1)
              ∧ files σ1 !! User (contigs_out P) = Some c0
              ∧ log σ1 = log σ ++ [Warning (missing_msg k)]
              ∧ calls σ1 = calls σ ++ [mkCall args r])
  ∧ (is_Some (split_opts P) → always_succeed P = false →
       ∃ σ1, attempt P libs nthreads k lib v σ
             = (Raise (RuntimeError (missing_msg k)), σ1)
             ∧ files σ1 !! User (contigs_out P) = Some c0
             ∧ calls σ1 = calls σ ++ [mkCall args r])
  ∧ (split_opts P = None →
       ∃ σ1, attempt P libs nthreads k lib v σ = (Raise ValueError, σ1)
             ∧ files σ1 !! User (contigs_out P) = Some c0
             ∧ calls σ1 = calls σ)
  ∧ missing_msg k
    = "SPAdes failed to make transcripts.fasta for k=" +:+ str_kmer k
  ∧ (∀ e, RuntimeError (missing_msg k) ≠ ToolFailure e)
  ∧ (∀ tf σ0, files σ0 !! tf = None →
       check_transcripts P k tf σ0
       = if always_succeed P
         then (Ok tt, mkState (<[tf := []]> (files σ0))
                        (log σ0 ++ [Warning (missing_msg k)]) (calls σ0)
                        (snapshots σ0) (next_dir σ0))
         else (Raise (RuntimeError (missing_msg k)), σ0)).
Proof.
  intros Hout Hfew fs0 args r Herr Hexp.
  pose proof (attempt_eq P libs nthreads k lib v c0 σ Hout) as Ha.
  unfold attempt_result in Ha.
  rewrite bool_decide_eq_true_2 in Ha by (by apply libs_of_attempt_length).
  fold fs0 args r in Ha. unfold yield, failure, warnings in Ha.
  rewrite Herr, Hexp in Ha.
  split; [| split; [| split; [| split; [done | split; [done |]]]]].
  - intros Hopts HAS. rewrite bool_decide_eq_true_2 in Ha by done.
    rewrite HAS in Ha. eexists _, _. split; [exact Ha |]. simpl.
    split; [| done]. by rewrite lookup_insert_eq, filtered_nil, app_nil_r.
  - intros Hopts HAS. rewrite bool_decide_eq_true_2 in Ha by done.
    rewrite HAS in Ha. eexists. split; [exact Ha |]. simpl.
    split; [| done]. unfold fs0. by rewrite lookup_rmtree_user.
  - intros Hno. rewrite bool_decide_eq_false_2 in Ha
      by (rewrite Hno; intros [? ?]; done).
    eexists. split; [exact Ha |]. simpl.
    split; [| done]. unfold fs0. by rewrite lookup_rmtree_user.
  - intros tf σ0 Hno. rewrite check_transcripts_eq. by rewrite Hno.
Qed.

Lemma lib_loop_cons P libs nthreads k lib rounds v σ :
  lib_loop P libs nthreads k (lib :: rounds) v σ
  = match attempt P libs nthreads k lib v σ with
    | (Ok v1, σ1) => lib_loop P libs nthreads k rounds v1 σ1
    | (Raise e, σ1) => (Raise e, σ1)
    end.
Proof.
  unfold lib_loop. cbn [for_loop]. unfold mbind at 1. unfold M_bind at 1.
  unfold mbind at 1. unfold M_bind at 1.
  by destruct (attempt P libs nthreads k lib v σ) as [[v1 | e] σ1].
Qed.

(** The body of the loop over the k-mer sizes changes the state only
    through its attempts, and raises what they raise. *)
Lemma kmer_body_state P libs nthreads k v σ :
  match lib_loop P libs nthreads k (lib_rounds P libs)
          (mkLocals (contigs_cumul_count v) (kmer_sizes_succeeded v) false
             (transcripts_fname v)) σ with
  | (Ok v1, σ1) =>
      (kmer_body P libs nthreads k v σ).2 = σ1
      ∧ (is_Some (transcripts_fname v1) →
         ∃ cv, (kmer_body P libs nthreads k v σ).1 = Ok cv)
  | (Raise e, σ1) => kmer_body P libs nthreads k v σ = (Raise e, σ1)
  end.
Proof.
  unfold kmer_body. unfold mbind, M_bind, get_files, mret, M_ret, raise.
  destruct (lib_loop _ _ _ _ _ _ _) as [[v1 | e] σ1]; [| done].
  destruct (transcripts_fname v1) as [tf|].
  - destruct (is_nonempty_file (files σ1) (Some tf)).
    + destruct (_ >=? _); eauto.
    + eauto.
  - split; [done |]. by intros [? ?].
Qed.

Lemma run_kmers_first P libs nthreads σ k ks :
  make_seq (kmer_sizes P) = k :: ks →
  let σi := mkState (files σ) (log σ ++ [InfoAssembling (length libs)])
              (calls σ) (snapshots σ) (next_dir σ) in
  match kmer_body P libs nthreads k (mkLocals 0 0 false None) σi with
  | (Ok cv, σ1) =>
      ks = [] → (run_kmers P libs nthreads σ) = (Ok tt, σ1)
  | (Raise e, σ1) => run_kmers P libs nthreads σ = (Raise e, σ1)
  end.
Proof.
  intros Hks σi. unfold run_kmers. rewrite Hks. cbn [for_loop].
  unfold mbind, M_bind, log_msg, mret, M_ret. fold σi.
  destruct (kmer_body _ _ _ _ _ σi) as [[[c v1] | e] σ1]; [| done].
  intros ->. cbn [for_loop fst snd]. by destruct c.
Qed.

Lemma assemble_some_library P fs l libs :
  valid_mode (mode P) = true →
  qualifying (<[User (contigs_out P) := []]> fs) (libraries P) = l :: libs →
  assemble P (initial fs)
  = run_kmers P (l :: libs) (sanitize_thread_count (threads P))
      (truncated P (initial fs)).
Proof.
  intros Hm Hq. rewrite assemble_valid by done.
  unfold assemble_libs, truncated, mbind, M_bind, get_files. simpl.
  by rewrite Hq.
Qed.

(** C9, amended: in rna mode with some k-mer size to iterate over, more
    than nine qualifying libraries make [assemble] fail on the assertion
    of line 104 before any invocation, whatever [always_succeed] is; with
    at most nine that assertion never fails; and in meta mode it never
    fails. *)
Theorem nine_library_bound P fs k ks :
  mode P = "rna" →
  make_seq (kmer_sizes P) = k :: ks →
  let libs := qualifying (<[User (contigs_out P) := []]> fs) (libraries P) in
  let run := assemble P (initial fs) in
  ((9 < length libs)%nat →
     run.1 = Raise (AssertionError None) ∧ calls run.2 = [])
  ∧ ((length libs ≤ 9)%nat → run.1 ≠ Raise (AssertionError None))
  ∧ (∀ P' fs', mode P' = "meta" →
       (assemble P' (initial fs')).1 ≠ Raise (AssertionError None)).
Proof.
  intros Hrna Hks libs run.
  assert (Hm : valid_mode (mode P) = true) by (unfold valid_mode; by rewrite Hrna).
  assert (Hnot : ∀ P' fs',
            valid_mode (mode P') = true →
            too_many P' (qualifying (<[User (contigs_out P') := []]> fs')
                           (libraries P')) = false →
            (assemble P' (initial fs')).1 ≠ Raise (AssertionError None)).
  { intros P' fs' Hm' Hfew. pose proof (assemble_run P' fs' Hm') as Hrun.
    destruct (assemble P' (initial fs')) as [[[] | e] σ']; simpl; [done |].
    destruct Hrun as [(_ & Hmany & _) | [(-> & _) | (cs & c & k' & _ & _ & -> & _)]].
    - congruence.
    - done.
    - unfold failure. by destruct (tool_error _). }
  split; [| split].
  - intros Hlen. subst run.
    destruct libs as [| l libs'] eqn:Hlibs; [simpl in Hlen; lia |].
    rewrite (assemble_some_library P fs l libs' Hm Hlibs).
    pose proof (run_kmers_first P (l :: libs')
                  (sanitize_thread_count (threads P))
                  (truncated P (initial fs)) k ks Hks) as Hfirst.
    simpl in Hfirst.
    match type of Hfirst with context [kmer_body ?P ?ls ?nt ?k ?v ?σi] =>
      pose proof (kmer_body_state P ls nt k v σi) as Hbody
    end.
    unfold lib_rounds in Hbody. rewrite Hrna in Hbody. simpl in Hbody.
    rewrite lib_loop_cons in Hbody.
    erewrite attempt_eq in Hbody by (simpl; apply lookup_insert_eq).
    unfold attempt_result in Hbody.
    rewrite bool_decide_eq_false_2 in Hbody.
    2:{ unfold libs_of_attempt. rewrite Hrna. simpl in *. lia. }
    rewrite Hbody in Hfirst. rewrite Hfirst. done.
  - intros Hlen. apply Hnot; [done |]. unfold too_many.
    rewrite bool_decide_eq_false_2 by (fold libs; lia). apply andb_false_r.
  - intros P' fs' Hmeta. apply Hnot.
    + unfold valid_mode. by rewrite Hmeta.
    + unfold too_many. by rewrite Hmeta.
Qed.

Lemma lib_loop_nil P libs nthreads k v σ :
  lib_loop P libs nthreads k [] v σ = (Ok v, σ).
Proof. done. Qed.

(** C8, amended: with two qualifying libraries and one k-mer size, when
    [spades_opts] is empty or splits into words, rna mode makes exactly
    one invocation, with both libraries as the inputs numbered 1 and 2;
    meta mode makes exactly two, one per library, each as input number 1,
    when the first attempt goes on, and exactly one when the first attempt
    fails fatally.  When [spades_opts] does not split, either mode makes
    no invocation and the call raises the error of [shlex.split]. *)
Theorem two_libraries_one_kmer P fs l1 l2 k :
  qualifying (<[User (contigs_out P) := []]> fs) (libraries P) = [l1; l2] →
  make_seq (kmer_sizes P) = [k] →
  let run := assemble P (initial fs) in
  let fs0 := rmtree 0 (<[User (contigs_out P) := []]> fs) in
  let rest := common_args P (sanitize_thread_count (threads P)) k in
  (is_Some (split_opts P) → mode P = "rna" →
     let a := "--rna" :: lib_args fs0 0 l1 ++ lib_args fs0 1 l2 ++ rest 0%nat in
     calls run.2 = [mkCall a (spades 0 a fs0)])
  ∧ (is_Some (split_opts P) → mode P = "meta" →
     let a1 := "--meta" :: lib_args fs0 0 l1 ++ rest 0%nat in
     let r1 := spades 0 a1 fs0 in
     (is_Some (yield P r1) →
        ∃ fs1, let a2 := "--meta" :: lib_args fs1 0 l2 ++ rest 1%nat in
               calls run.2 = [mkCall a1 r1; mkCall a2 (spades 1 a2 fs1)])
     ∧ (yield P r1 = None →
        calls run.2 = [mkCall a1 r1] ∧ run.1 = Raise (failure k r1)))
  ∧ (split_opts P = None → valid_mode (mode P) = true →
     calls run.2 = [] ∧ run.1 = Raise ValueError)
  ∧ (∀ fs' l,
       lib_args fs' 0 l
       = ["--pe1-1"; str_fname (reads_fwd l); "--pe1-2"; str_fname (reads_bwd l)]
         ++ (if is_nonempty_file fs' (User <$> reads_unpaired l)
             then ["--pe1-s"; str_fname (reads_unpaired l)] else [])
       ∧ lib_args fs' 1 l
         = ["--pe2-1"; str_fname (reads_fwd l); "--pe2-2"; str_fname (reads_bwd l)]
           ++ (if is_nonempty_file fs' (User <$> reads_unpaired l)
               then ["--pe2-s"; str_fname (reads_unpaired l)] else [])).
Proof.
  intros Hq Hks run fs0 rest. subst run.
  split; [| split; [| split; [| done]]].
  - intros Hopts Hrna a.
    assert (Hm : valid_mode (mode P) = true) by (unfold valid_mode; by rewrite Hrna).
    rewrite (assemble_some_library P fs l1 [l2] Hm Hq).
    pose proof (run_kmers_first P [l1; l2] (sanitize_thread_count (threads P))
                  (truncated P (initial fs)) k [] Hks) as Hfirst.
    cbn [truncated initial files log calls snapshots next_dir length] in Hfirst.
    match type of Hfirst with context [kmer_body ?P ?ls ?nt ?k ?v ?σi] =>
      pose proof (kmer_body_state P ls nt k v σi) as Hbody;
      set (kb := kmer_body P ls nt k v σi) in *
    end.
    unfold lib_rounds in Hbody. rewrite Hrna in Hbody.
    cbn [String.eqb Ascii.eqb Bool.eqb contigs_cumul_count kmer_sizes_succeeded
           transcripts_fname] in Hbody.
    rewrite lib_loop_cons in Hbody.
    erewrite attempt_eq in Hbody
      by (cbn [files]; apply lookup_insert_eq).
    unfold attempt_result in Hbody.
    cbn [files log calls snapshots next_dir length] in Hbody.
    rewrite bool_decide_eq_true_2 in Hbody.
    2:{ unfold libs_of_attempt. rewrite Hrna. simpl. lia. }
    rewrite bool_decide_eq_true_2 in Hbody by done.
    fold fs0 in Hbody.
    assert (Ha : args_of P [l1; l2] (sanitize_thread_count (threads P)) k None 0 fs0 = a).
    { unfold args_of, mode_flag, libs_of_attempt. rewrite Hrna. simpl.
      unfold a, rest. by rewrite app_nil_r, <- app_assoc. }
    rewrite Ha in Hbody.
    destruct (yield P (spades 0 a fs0)) as [t|].
    + rewrite lib_loop_nil in Hbody. destruct Hbody as [Hst Hok].
      destruct kb as [[cv | e] σ1].
      * rewrite Hfirst by done. simpl in *. by rewrite Hst.
      * rewrite Hfirst. simpl in *. by rewrite Hst.
    + rewrite Hbody in Hfirst. by rewrite Hfirst.
  - intros Hopts Hmeta a1 r1.
    assert (Hm : valid_mode (mode P) = true) by (unfold valid_mode; by rewrite Hmeta).
    rewrite (assemble_some_library P fs l1 [l2] Hm Hq).
    pose proof (run_kmers_first P [l1; l2] (sanitize_thread_count (threads P))
                  (truncated P (initial fs)) k [] Hks) as Hfirst.
    cbn [truncated initial files log calls snapshots next_dir length] in Hfirst.
    match type of Hfirst with context [kmer_body ?P ?ls ?nt ?k ?v ?σi] =>
      pose proof (kmer_body_state P ls nt k v σi) as Hbody;
      set (kb := kmer_body P ls nt k v σi) in *
    end.
    unfold lib_rounds in Hbody. rewrite Hmeta in Hbody.
    cbn [String.eqb Ascii.eqb Bool.eqb contigs_cumul_count kmer_sizes_succeeded
           transcripts_fname fmap list_fmap] in Hbody.
    rewrite lib_loop_cons in Hbody.
    erewrite attempt_eq in Hbody
      by (cbn [files]; apply lookup_insert_eq).
    unfold attempt_result in Hbody.
    cbn [files log calls snapshots next_dir length] in Hbody.
    rewrite bool_decide_eq_true_2 in Hbody.
    2:{ unfold libs_of_attempt. rewrite Hmeta. simpl. lia. }
    rewrite bool_decide_eq_true_2 in Hbody by done.
    fold fs0 in Hbody.
    assert (Ha : ∀ l d fs',
              args_of P [l1; l2] (sanitize_thread_count (threads P)) k (Some l) d fs'
              = "--meta" :: lib_args fs' 0 l ++ rest d).
    { intros l d fs'. unfold args_of, mode_flag, libs_of_attempt.
      rewrite Hmeta. simpl. unfold rest. by rewrite app_nil_r. }
    rewrite Ha in Hbody. fold a1 r1 in Hbody.
    split.
    + intros [t Ht]. rewrite Ht in Hbody.
      rewrite lib_loop_cons in Hbody.
      erewrite attempt_eq in Hbody
        by (cbn [files]; apply lookup_insert_eq).
      unfold attempt_result in Hbody.
      cbn [files log calls snapshots next_dir length app] in Hbody.
      rewrite bool_decide_eq_true_2 in Hbody.
      2:{ unfold libs_of_attempt. rewrite Hmeta. simpl. lia. }
      rewrite bool_decide_eq_true_2 in Hbody by done.
      rewrite Ha in Hbody.
      match type of Hbody with context [spades 1 (_ :: lib_args ?f _ _ ++ _) _] =>
        exists f
      end.
      destruct (yield P (spades 1 _ _)) as [t2|].
      * rewrite lib_loop_nil in Hbody. destruct Hbody as [Hst Hok].
        destruct kb as [[cv | e] σ1].
        -- rewrite Hfirst by done. simpl in *. by rewrite Hst.
        -- rewrite Hfirst. simpl in *. by rewrite Hst.
      * rewrite Hbody in Hfirst. by rewrite Hfirst.
    + intros Hy. rewrite Hy in Hbody. rewrite Hbody in Hfirst.
      by rewrite Hfirst.
  - intros Hno Hm.
    rewrite (assemble_some_library P fs l1 [l2] Hm Hq).
    pose proof (run_kmers_first P [l1; l2] (sanitize_thread_count (threads P))
                  (truncated P (initial fs)) k [] Hks) as Hfirst.
    cbn [truncated initial files log calls snapshots next_dir length] in Hfirst.
    match type of Hfirst with context [kmer_body ?P ?ls ?nt ?k ?v ?σi] =>
      pose proof (kmer_body_state P ls nt k v σi) as Hbody;
      set (kb := kmer_body P ls nt k v σi) in *
    end.
    assert (Hrounds : ∃ lib rounds, lib_rounds P [l1; l2] = lib :: rounds).
    { unfold lib_rounds. destruct (String.eqb (mode P) "meta"); simpl; eauto. }
    destruct Hrounds as (lib & rounds & Hrounds). rewrite Hrounds in Hbody.
    rewrite lib_loop_cons in Hbody.
    erewrite attempt_eq in Hbody
      by (cbn [files]; apply lookup_insert_eq).
    unfold attempt_result in Hbody.
    cbn [files log calls snapshots next_dir length] in Hbody.
    rewrite bool_decide_eq_true_2 in Hbody.
    2:{ apply libs_of_attempt_length. unfold too_many. simpl.
        apply andb_false_r. }
    rewrite bool_decide_eq_false_2 in Hbody
      by (rewrite Hno; intros [? ?]; done).
    rewrite Hbody in Hfirst. by rewrite Hfirst.
Qed.

(** The invocations follow the plan: each attempt that runs the tool runs
    it for its own k-mer size and round, in the order of the loops. *)
Lemma attempt_job P libs nthreads k lib v c0 σ pre :
  files σ !! User (contigs_out P) = Some c0 →
  Forall2 (runs_job P libs nthreads) pre (calls σ) →
  match attempt P libs nthreads k lib v σ with
  | (Ok _, σ') => Forall2 (runs_job P libs nthreads) (pre ++ [(k, lib)]) (calls σ')
  | (Raise _, σ') =>
      ∃ n, (n ≤ 1)%nat
           ∧ Forall2 (runs_job P libs nthreads) (pre ++ take n [(k, lib)]) (calls σ')
  end.
Proof.
  intros Hout Hpre. rewrite (attempt_eq _ _ _ _ _ _ _ _ Hout).
  unfold attempt_result.
  assert (Hnew : ∀ d fs r,
            Forall2 (runs_job P libs nthreads) (pre ++ [(k, lib)])
              (calls σ ++ [mkCall (args_of P libs nthreads k lib d fs) r])).
  { intros d fs r. apply Forall2_app; [done |].
    constructor; [by exists d, fs | constructor]. }
  assert (Hold : ∃ n, (n ≤ 1)%nat
            ∧ Forall2 (runs_job P libs nthreads) (pre ++ take n [(k, lib)]) (calls σ)).
  { exists 0%nat. split; [lia |]. simpl. by rewrite app_nil_r. }
  case_bool_decide; [| done]. case_bool_decide; [| done].
  destruct (yield P _); simpl; [apply Hnew |].
  exists 1%nat. split; [lia |]. apply Hnew.
Qed.

Lemma lib_loop_plan P libs (ks : list kmer_size) c0 nthreads k rounds :
  k ∈ ks →
  ∀ v σ pre, consistent P libs c0 σ →
    Forall2 (runs_job P libs nthreads) pre (calls σ) →
    match lib_loop P libs nthreads k rounds v σ with
    | (Ok _, σ') =>
        Forall2 (runs_job P libs nthreads) (pre ++ List.map (pair k) rounds) (calls σ')
    | (Raise _, σ') =>
        ∃ n, (n ≤ length rounds)%nat
             ∧ Forall2 (runs_job P libs nthreads)
                 (pre ++ take n (List.map (pair k) rounds)) (calls σ')
    end.
Proof.
  intros Hk. induction rounds as [| lib rounds IH]; intros v σ pre Hc Hpre.
  - rewrite lib_loop_nil. simpl. by rewrite app_nil_r.
  - rewrite lib_loop_cons.
    pose proof (attempt_step P libs ks c0 nthreads k lib v σ Hk Hc) as Hs.
    pose proof Hc as (I1 & _).
    pose proof (attempt_job P libs nthreads k lib v _ σ pre I1 Hpre) as Hj.
    destruct (attempt P libs nthreads k lib v σ) as [[v1 | e] σ1].
    + destruct Hs as (Hc1 & _). specialize (IH v1 σ1 _ Hc1 Hj).
      destruct (lib_loop P libs nthreads k rounds v1 σ1) as [[v2 | e] σ2].
      * simpl. by rewrite <- app_assoc in IH.
      * destruct IH as (n & Hn & IH). exists (S n). split; [simpl; lia |].
        simpl. by rewrite <- app_assoc in IH.
    + destruct Hj as (n & Hn & Hj). exists n. split; [simpl; lia |].
      destruct n as [| [| n]]; [done | | lia]. simpl in *. by rewrite take_0.
Qed.

Lemma kmer_loop_plan P libs c0 nthreads (ks : list kmer_size) :
  libs ≠ [] →
  ∀ ks', ks' ⊆ ks →
  ∀ v σ pre, consistent P libs c0 σ →
    Forall2 (runs_job P libs nthreads) pre (calls σ) →
    match for_loop (kmer_body P libs nthreads) ks' v σ with
    | (Ok _, σ') =>
        Forall2 (runs_job P libs nthreads) (pre ++ jobs ks' (lib_rounds P libs))
          (calls σ')
    | (Raise _, σ') =>
        ∃ n, Forall2 (runs_job P libs nthreads)
               (pre ++ take n (jobs ks' (lib_rounds P libs))) (calls σ')
    end.
Proof.
  intros Hne ks'. induction ks' as [| k ks' IH]; intros Hsub v σ pre Hc Hpre.
  - simpl. by rewrite app_nil_r.
  - cbn [for_loop]. unfold mbind, M_bind.
    assert (Hk : k ∈ ks) by (apply Hsub; left).
    pose proof (kmer_body_step P libs ks c0 nthreads k v σ Hk Hne Hc) as Hs.
    pose proof (kmer_body_state P libs nthreads k v σ) as Hst.
    match type of Hst with context [lib_loop _ _ _ _ ?r ?v0 σ] =>
      pose proof (lib_loop_plan P libs ks c0 nthreads k r Hk v0 σ pre Hc Hpre) as Hn;
      destruct (lib_loop P libs nthreads k r v0 σ) as [[v1 | e] σ1]
    end.
    + destruct Hst as [Hst _].
      destruct (kmer_body P libs nthreads k v σ) as [[[c v2] | e] σ2];
        simpl in *; subst σ2.
      * destruct Hs as [-> Hc2].
        assert (Hsub' : ks' ⊆ ks) by (intros x Hx; apply Hsub; by right).
        specialize (IH Hsub' v2 σ1 _ Hc2 Hn).
        destruct (for_loop (kmer_body P libs nthreads) ks' v2 σ1)
          as [[v3 | e] σ3]; simpl.
        -- by rewrite <- app_assoc in IH.
        -- destruct IH as (n & IH).
           exists (length (List.map (pair k) (lib_rounds P libs)) + n)%nat.
           rewrite take_app_add. by rewrite <- app_assoc in IH.
      * exists (length (List.map (pair k) (lib_rounds P libs))).
        rewrite take_app_length. done.
    + rewrite Hst. simpl. destruct Hn as (n & Hle & Hn). exists n.
      rewrite take_app_le by (rewrite length_map; lia). done.
Qed.

Lemma assemble_plan P fs l ls :
  valid_mode (mode P) = true →
  qualifying (<[User (contigs_out P) := []]> fs) (libraries P) = l :: ls →
  let J := runs_job P (l :: ls) (sanitize_thread_count (threads P)) in
  match assemble P (initial fs) with
  | (Ok _, σ') => Forall2 J (plan P (l :: ls)) (calls σ')
  | (Raise _, σ') => ∃ n, Forall2 J (take n (plan P (l :: ls))) (calls σ')
  end.
Proof.
  intros Hm Hq J. rewrite (assemble_some_library P fs l ls Hm Hq).
  unfold run_kmers, truncated, initial; unfold mbind, M_bind, log_msg;
    cbn [files log calls snapshots next_dir app].
  match goal with |- context [for_loop ?b ?ks ?v0 ?σ0] =>
      pose proof (kmer_loop_plan P (l :: ls) [] (sanitize_thread_count (threads P))
                    (make_seq (kmer_sizes P)) ltac:(done)
                    (make_seq (kmer_sizes P)) ltac:(done) v0 σ0 []) as Hn;
      assert (Hc0 : consistent P (l :: ls) [] σ0)
        by (unfold consistent; simpl; rewrite lookup_insert_eq;
            repeat split; try done;
            intros c e' Hin; by apply elem_of_nil in Hin);
      specialize (Hn Hc0 ltac:(constructor));
      destruct (for_loop b ks v0 σ0) as [[v1 | e] σ1]
  end; done.
Qed.

(** C4: with [always_succeed], when an invocation fails, [assemble] still
    returns normally, a warning was logged, the attempt adds nothing to
    [contigs_out] and completes, and the attempt scheduled after it, if
    there is one (the next round of the loop over the libraries, or the
    first round of the next k-mer size), is made next; the failure is
    turned into an empty transcripts file, and the loop over the libraries
    goes on with the next round. *)
Theorem tolerated_failure_goes_on P fs (i : nat) c e :
  always_succeed P = true →
  calls (assemble P (initial fs)).2 !! i = Some c →
  tool_error (call_result c) = Some e →
  let run := assemble P (initial fs) in
  let libs := qualifying (<[User (contigs_out P) := []]> fs) (libraries P) in
  let nthreads := sanitize_thread_count (threads P) in
  run.1 = Ok tt
  ∧ (∃ k lib, WarnSpadesFailed k lib (ToolFailure e) ∈ log run.2)
  ∧ contribution P c = []
  ∧ snapshots run.2 !! i = Some (Some (merged P (take i (calls run.2))))
  ∧ (∃ job, plan P libs !! i = Some job ∧ runs_job P libs nthreads job c)
  ∧ (∀ job, plan P libs !! S i = Some job →
       ∃ c', calls run.2 !! S i = Some c' ∧ runs_job P libs nthreads job c')
  ∧ (∀ k lib d args tf σ e',
       tool_error (spades (length (calls σ)) args (files σ)) = Some e' →
       ∃ σ1, invoke P k lib d args tf σ = (Ok tt, σ1)
             ∧ files σ1 !! tf = Some []
             ∧ log σ1 = log σ ++ [WarnSpadesFailed k lib (ToolFailure e')])
  ∧ (∀ libs nthreads k lib rounds v σ c0 e',
       files σ !! User (contigs_out P) = Some c0 →
       too_many P libs = false →
       is_Some (split_opts P) →
       tool_error
         (spades (length (calls σ))
            (args_of P libs nthreads k lib (next_dir σ)
               (rmtree (next_dir σ) (files σ)))
            (rmtree (next_dir σ) (files σ))) = Some e' →
       ∃ v1 σ1,
         attempt P libs nthreads k lib v σ = (Ok v1, σ1)
         ∧ files σ1 !! User (contigs_out P) = Some c0
         ∧ lib_loop P libs nthreads k (lib :: rounds) v σ
           = lib_loop P libs nthreads k rounds v1 σ1).
Proof.
  intros HAS Hi He run libs nthreads. subst run.
  assert (Hcon : contribution P c = []).
  { unfold contribution, yield. rewrite He, HAS. simpl. apply filtered_nil. }
  assert (Hm : valid_mode (mode P) = true).
  { destruct (valid_mode (mode P)) eqn:Hm; [done |].
    rewrite assemble_invalid in Hi by done. done. }
  assert (Hok : (assemble P (initial fs)).1 = Ok tt).
  { pose proof (assemble_run P fs Hm) as Hrun.
    destruct (assemble P (initial fs)) as [[[] | e0] σ']; simpl in *; [done |].
    exfalso. apply aborted_tolerant in Hrun as [Hnil _]; [| done].
    by rewrite Hnil in Hi. }
  assert (Hplan : Forall2 (runs_job P libs nthreads) (plan P libs)
                    (calls (assemble P (initial fs)).2)).
  { destruct libs as [| l ls] eqn:Hq.
    - exfalso. rewrite assemble_valid in Hi by done.
      unfold assemble_libs, truncated, initial, mbind, M_bind, get_files in Hi.
      cbn [files log calls snapshots next_dir] in Hi. fold libs in Hi.
      rewrite Hq in Hi. simpl in Hi. done.
    - pose proof (assemble_plan P fs l ls Hm Hq) as Hp. fold nthreads in Hp.
      destruct (assemble P (initial fs)) as [[[] | e0] σ']; simpl in *; done. }
  pose proof (assemble_run P fs Hm) as Hrun.
  destruct (assemble P (initial fs)) as [[[] | e0] σ']; simpl in *; [| done].
  split; [done |]. split; [| split; [done | split; [| split; [| split; [| split]]]]].
  - destruct Hrun as (_ & _ & _ & I4 & _). eapply I4; [| done].
    by eapply list_elem_of_lookup_2.
  - destruct Hrun as (_ & I2 & _). rewrite I2. unfold snaps_of.
    rewrite list_lookup_fmap, lookup_seq_lt by (by eapply lookup_lt_Some).
    simpl. do 2 f_equal. erewrite take_S_r by done.
    by rewrite merged_snoc, Hcon, app_nil_r.
  - by eapply Forall2_lookup_r.
  - intros job Hjob. by eapply Forall2_lookup_l.
  - intros k lib d args tf σ e' Hfail. rewrite invoke_eq. simpl.
    rewrite Hfail, HAS. eexists. split; [done |]. simpl.
    by rewrite lookup_insert_eq.
  - intros libs' nthreads' k lib rounds v σ c0 e' Hout Hfew Hopts Hfail.
    pose proof (attempt_eq P libs' nthreads' k lib v c0 σ Hout) as Ha.
    unfold attempt_result in Ha.
    rewrite bool_decide_eq_true_2 in Ha by (by apply libs_of_attempt_length).
    rewrite bool_decide_eq_true_2 in Ha by done.
    unfold yield in Ha. rewrite Hfail, HAS in Ha.
    eexists _, _. split; [exact Ha |]. simpl. split.
    + by rewrite lookup_insert_eq, filtered_nil, app_nil_r.
    + unfold lib_loop. simpl. unfold mbind at 1. unfold M_bind at 1.
      unfold mbind at 1. unfold M_bind at 1. rewrite Ha. done.
Qed.
End Run.

(** ** The claims on concrete runs *)

Module Runs.
Import Examples.

(** C1, the code against the claim: with the k-mer sizes 21, 33 and 55,
    [max_kmer_sizes] 2 and an assembler whose every run leaves non-empty
    transcripts, [assemble] still runs the assembler for k=55.  The
    scratch directory is gone when line 157 looks for the transcripts
    file, so the count of k-mer sizes that succeeded stays 0. *)
Theorem third_kmer_size_is_tried :
  let run := @assemble (externals_of tool_good) rna_three (initial disk) in
  max_kmer_sizes rna_three = 2
  ∧ run.1 = Ok tt
  ∧ List.map (λ c, tool_ok rna_three (call_result c)) (calls run.2)
    = [true; true; true]
  ∧ List.map (λ c, expected_out rna_three (call_result c)) (calls run.2)
    = [Some contigs; Some contigs; Some contigs]
  ∧ List.map call_args (calls run.2)
    = [["--rna"; "--pe1-1"; "a_1.fq"; "--pe1-2"; "a_2.fq"; "-k"; "21";
        "-m8"; "-t"; "1"; "-o"; "/tmp/spades0"];
       ["--rna"; "--pe1-1"; "a_1.fq"; "--pe1-2"; "a_2.fq"; "-k"; "33";
        "-m8"; "-t"; "1"; "-o"; "/tmp/spades1"];
       ["--rna"; "--pe1-1"; "a_1.fq"; "--pe1-2"; "a_2.fq"; "-k"; "55";
        "-m8"; "-t"; "1"; "-o"; "/tmp/spades2"]].
Proof. vm_compute. repeat split. Qed.

(** C5 as stated fails: with a mode that is neither rna nor meta and no
    library at all, [assemble] raises and leaves [contigs_out] as it
    was. *)
Lemma no_library_bad_mode_raises :
  let run := @assemble (externals_of tool_good) bad_mode (initial disk) in
  qualifying disk (libraries bad_mode) = []
  ∧ run.1 = Raise (AssertionError (Some "Invalid SPAdes mode: dna"))
  ∧ log run.2 = []
  ∧ files run.2 !! User (contigs_out bad_mode) = Some (bytes_of "old").
Proof. vm_compute. repeat split. Qed.

(** C8 as stated fails: in meta mode with two qualifying libraries and
    the k-mer sizes [21], a failure of the first invocation that is not
    tolerated leaves one invocation, not two. *)
Lemma meta_first_failure_one_invocation :
  let run := @assemble (externals_of tool_fail) (meta_two false 0) (initial disk) in
  qualifying (<[User "out.fasta" := []]> disk) (libraries (meta_two false 0))
  = [lib_a; lib_b]
  ∧ kmer_sizes (meta_two false 0) = Some [Some 21]
  ∧ mode (meta_two false 0) = "meta"
  ∧ run.1 = Raise (ToolFailure "exit status 1")
  ∧ length (calls run.2) = 1%nat
  ∧ length (calls run.2) ≠ 2%nat.
Proof. vm_compute. repeat split. discriminate. Qed.

(** C9 as stated fails: in rna mode with ten qualifying libraries and an
    empty list of k-mer sizes, [assemble] returns normally. *)
Lemma ten_libraries_no_kmer_returns :
  let run := @assemble (externals_of tool_good) (rna_ten (Some [])) (initial disk) in
  mode (rna_ten (Some [])) = "rna"
  ∧ length (qualifying (<[User "out.fasta" := []]> disk)
              (libraries (rna_ten (Some [])))) = 10%nat
  ∧ run.1 = Ok tt
  ∧ run.1 ≠ Raise (AssertionError None).
Proof. vm_compute. repeat split. discriminate. Qed.

Lemma contigs_out_accumulates_witness :
  let X := externals_of tool_good in
  let σ := initial disk in
  (files σ !! User (contigs_out (meta_two false 0)) = Some (bytes_of "old")
   ∧ calls σ = [] ∧ snapshots σ = [])
  ∧ ∀ (N : nat) s,
      snapshots (@run_kmers X (meta_two false 0) [lib_a; lib_b] 1 σ).2 !! N
      = Some s →
      s = Some (bytes_of "old"
                ++ @merged X (meta_two false 0)
                     (take (S N)
                        (calls (@run_kmers X (meta_two false 0)
                                  [lib_a; lib_b] 1 σ).2))).
Proof.
  intros X σ.
  assert (H1 : files σ !! User (contigs_out (meta_two false 0))
               = Some (bytes_of "old")) by (vm_compute; reflexivity).
  assert (H2 : calls σ = []) by reflexivity.
  assert (H3 : snapshots σ = []) by reflexivity.
  split; [done |].
  exact (proj1 (@contigs_out_accumulates X (meta_two false 0) lib_a [lib_b] 1
                  σ (bytes_of "old") H1 H2 H3)).
Defined.

Lemma fatal_failure_stops_the_run_witness :
  let X := externals_of (tool_fail_at 1) in
  let run := @assemble X (meta_two false 0) (initial disk) in
  ∃ c,
    (always_succeed (meta_two false 0) = false
     ∧ calls run.2 !! 1%nat = Some c
     ∧ tool_ok (meta_two false 0) (call_result c) = false)
    ∧ length (calls run.2) = 2%nat
    ∧ files run.2 !! User "out.fasta"
      = Some (@merged X (meta_two false 0) (take 1 (calls run.2))).
Proof.
  intros X run. eexists.
  assert (H1 : always_succeed (meta_two false 0) = false) by reflexivity.
  assert (H2 : calls run.2 !! 1%nat
               = Some (mkCall ["--meta"; "--pe1-1"; "b_1.fq"; "--pe1-2"; "b_2.fq";
                               "-k"; "21"; "-m8"; "-t"; "1"; "-o"; "/tmp/spades1"]
                         failed_result))
    by (vm_compute; reflexivity).
  assert (H3 : tool_ok (meta_two false 0) failed_result = false) by reflexivity.
  split; [split; [exact H1 | split; [exact H2 | exact H3]] |].
  pose proof (@fatal_failure_stops_the_run X (meta_two false 0) disk 1 _ H1 H2 H3)
    as (_ & Hlen & Hfiles & _).
  split; [exact Hlen | exact Hfiles].
Defined.

Lemma tolerated_failure_goes_on_witness :
  let X := externals_of (tool_fail_at 0) in
  let P := rna_tolerant in
  let run := @assemble X P (initial disk) in
  let libs := qualifying (<[User (contigs_out P) := []]> disk) (libraries P) in
  ∃ c,
    (always_succeed P = true
     ∧ calls run.2 !! 0%nat = Some c
     ∧ tool_error (call_result c) = Some "exit status 1")
    ∧ run.1 = Ok tt
    ∧ @contribution X P c = []
    ∧ plan P libs !! 1%nat = Some (Some 33, None)
    ∧ ∃ c', calls run.2 !! 1%nat = Some c'
            ∧ @runs_job X P libs (sanitize_thread_count (threads P))
                (Some 33, None) c'.
Proof.
  intros X P run libs. eexists.
  assert (H1 : always_succeed P = true) by reflexivity.
  assert (H2 : calls run.2 !! 0%nat
               = Some (mkCall ["--rna"; "--pe1-1"; "a_1.fq"; "--pe1-2"; "a_2.fq";
                               "-k"; "21"; "-m8"; "-t"; "1"; "-o"; "/tmp/spades0"]
                         failed_result))
    by (vm_compute; reflexivity).
  assert (H3 : tool_error failed_result = Some "exit status 1") by reflexivity.
  assert (Hp : plan P libs !! 1%nat = Some (Some 33, None))
    by (vm_compute; reflexivity).
  split; [split; [exact H1 | split; [exact H2 | exact H3]] |].
  pose proof (@tolerated_failure_goes_on X P disk 0 _ _ H1 H2 H3)
    as (Hok & _ & Hnone & _ & _ & Hnext & _).
  split; [exact Hok |]. split; [exact Hnone |]. split; [exact Hp |].
  exact (Hnext _ Hp).
Defined.

Lemma no_library_no_run_witness :
  let X := externals_of tool_good in
  (valid_mode (mode no_reads) = true
   ∧ qualifying (files (initial disk)) (libraries no_reads) = [])
  ∧ @assemble X no_reads (initial disk)
    = (Ok tt,
       mkState (<[User "out.fasta" := []]> disk) [WarnNoLibraries] [] [] 0).
Proof.
  intros X.
  assert (H1 : valid_mode (mode no_reads) = true) by reflexivity.
  assert (H2 : qualifying (files (initial disk)) (libraries no_reads) = [])
    by (vm_compute; reflexivity).
  split; [done |].
  exact (@no_library_no_run X no_reads (initial disk) H1 H2).
Defined.

Lemma short_contigs_dropped_witness :
  let X := externals_of tool_good in
  let run := @assemble X (meta_two false 4) (initial disk) in
  0 < min_contig_len (meta_two false 4)
  ∧ ∀ (N : nat) s, snapshots run.2 !! N = Some s →
      s = Some (@merged_long X (meta_two false 4) (take (S N) (calls run.2))).
Proof.
  intros X run.
  assert (H1 : 0 < min_contig_len (meta_two false 4)) by reflexivity.
  split; [exact H1 |].
  exact (proj1 (proj2 (@short_contigs_dropped X (meta_two false 4) disk H1))).
Defined.

Lemma missing_transcripts_detected_witness :
  let X := externals_of tool_silent in
  let P := meta_two false 0 in
  let σ := initial disk in
  (files σ !! User (contigs_out P) = Some (bytes_of "old")
   ∧ @too_many P [lib_a; lib_b] = false
   ∧ tool_error silent_result = None
   ∧ @expected_out P silent_result = None)
  ∧ (∃ σ1, @attempt X P [lib_a; lib_b] 1 (Some 21) (Some lib_a)
             (mkLocals 0 0 false None) σ
           = (Raise (RuntimeError (missing_msg (Some 21))), σ1)
           ∧ files σ1 !! User (contigs_out P) = Some (bytes_of "old")
           ∧ calls σ1
             = calls σ
               ++ [mkCall (@args_of X P [lib_a; lib_b] 1 (Some 21) (Some lib_a)
                             (next_dir σ) (rmtree (next_dir σ) (files σ)))
                     silent_result]).
Proof.
  intros X P σ.
  assert (H1 : files σ !! User (contigs_out P) = Some (bytes_of "old"))
    by (vm_compute; reflexivity).
  assert (H2 : @too_many P [lib_a; lib_b] = false) by reflexivity.
  assert (Ho : is_Some (@split_opts X P)) by (by exists []).
  assert (H3 : tool_error silent_result = None) by reflexivity.
  assert (H4 : @expected_out P silent_result = None) by reflexivity.
  split; [done |].
  exact (proj1 (proj2 (@missing_transcripts_detected X P [lib_a; lib_b] 1
                         (Some 21) (Some lib_a) (mkLocals 0 0 false None) σ
                         (bytes_of "old") H1 H2 H3 H4)) Ho eq_refl).
Defined.

Lemma two_libraries_one_kmer_witness :
  let X := externals_of tool_good in
  let run := @assemble X rna_two (initial disk) in
  (qualifying (<[User (contigs_out rna_two) := []]> disk) (libraries rna_two)
   = [lib_a; lib_b]
   ∧ make_seq (kmer_sizes rna_two) = [Some 21]
   ∧ is_Some (@split_opts X rna_two))
  ∧ (let fs0 := rmtree 0 (<[User (contigs_out rna_two) := []]> disk) in
     let a := "--rna" :: lib_args fs0 0 lib_a ++ lib_args fs0 1 lib_b
                ++ @common_args X rna_two (sanitize_thread_count (threads rna_two))
                     (Some 21) 0%nat in
     calls run.2 = [mkCall a (spades 0 a fs0)]).
Proof.
  intros X run.
  assert (H1 : qualifying (<[User (contigs_out rna_two) := []]> disk)
                 (libraries rna_two) = [lib_a; lib_b])
    by (vm_compute; reflexivity).
  assert (H2 : make_seq (kmer_sizes rna_two) = [Some 21]) by reflexivity.
  assert (Ho : is_Some (@split_opts X rna_two)) by (by exists []).
  split; [done |].
  exact (proj1 (@two_libraries_one_kmer X rna_two disk lib_a lib_b (Some 21) H1 H2)
           Ho eq_refl).
Defined.

Lemma nine_library_bound_witness :
  let X := externals_of tool_good in
  let P := rna_ten (Some [Some 21]) in
  let run := @assemble X P (initial disk) in
  (mode P = "rna" ∧ make_seq (kmer_sizes P) = [Some 21])
  ∧ (9 < length (qualifying (<[User (contigs_out P) := []]> disk) (libraries P)))%nat
  ∧ run.1 = Raise (AssertionError None) ∧ calls run.2 = [].
Proof.
  intros X P run.
  assert (H1 : mode P = "rna") by reflexivity.
  assert (H2 : make_seq (kmer_sizes P) = [Some 21]) by reflexivity.
  assert (H3 : (9 < length (qualifying (<[User (contigs_out P) := []]> disk)
                              (libraries P)))%nat)
    by (vm_compute; lia).
  split; [done |]. split; [exact H3 |].
  exact (proj1 (@nine_library_bound X P disk (Some 21) [] H1 H2) H3).
Defined.

Lemma contigs_out_truncated_first_witness :
  let X := externals_of tool_good in
  valid_mode (mode rna_two) = true
  ∧ @assemble X rna_two (initial disk)
    = @assemble_libs X rna_two (truncated rna_two (initial disk)).
Proof.
  intros X.
  assert (H1 : valid_mode (mode rna_two) = true) by reflexivity.
  split; [exact H1 |].
  exact (proj1 (@contigs_out_truncated_first X rna_two (initial disk) H1)).
Defined.

End Runs.

(** ** More of the call: what every run keeps *)

Section More.
Context `{Externals}.

(** A property of the state that every attempt keeps is kept by the loop
    over the libraries. *)
Lemma lib_loop_preserves (Q : state → Prop) P libs (ks : list kmer_size) c0
    nthreads k rounds :
  k ∈ ks →
  (∀ lib v σ c, lib ∈ rounds →
     files σ !! User (contigs_out P) = Some c → Q σ →
     Q (attempt_result P libs nthreads k lib v c σ).2) →
  ∀ v σ, consistent P libs c0 σ → Q σ →
    Q (lib_loop P libs nthreads k rounds v σ).2.
Proof.
  intros Hk. induction rounds as [| lib rounds IH]; intros Hstep v σ Hc Hq.
  - done.
  - rewrite lib_loop_cons.
    pose proof (attempt_step P libs ks c0 nthreads k lib v σ Hk Hc) as Hs.
    pose proof Hc as (I1 & _).
    pose proof (Hstep lib v σ _ (list_elem_of_here _ _) I1 Hq) as Hq1.
    rewrite <- (attempt_eq _ _ _ _ _ _ _ _ I1) in Hq1.
    destruct (attempt P libs nthreads k lib v σ) as [[v1 | e] σ1]; [| done].
    destruct Hs as (Hc1 & _). apply IH; [| done | done].
    intros lib' v' σ' c Hin. apply Hstep. by right.
Qed.

(** ... and by the loop over the k-mer sizes. *)
Lemma kmer_loop_preserves (Q : state → Prop) P libs c0 nthreads
    (ks : list kmer_size) :
  libs ≠ [] →
  (∀ k lib v σ c, k ∈ ks → lib ∈ lib_rounds P libs →
     files σ !! User (contigs_out P) = Some c → Q σ →
     Q (attempt_result P libs nthreads k lib v c σ).2) →
  ∀ ks', ks' ⊆ ks →
  ∀ v σ, consistent P libs c0 σ → Q σ →
    Q (for_loop (kmer_body P libs nthreads) ks' v σ).2.
Proof.
  intros Hne Hstep ks'. induction ks' as [| k ks' IH]; intros Hsub v σ Hc Hq.
  - done.
  - cbn [for_loop]. unfold mbind, M_bind.
    assert (Hk : k ∈ ks) by (apply Hsub; left).
    pose proof (kmer_body_step P libs ks c0 nthreads k v σ Hk Hne Hc) as Hs.
    pose proof (kmer_body_state P libs nthreads k v σ) as Hst.
    match type of Hst with context [lib_loop _ _ _ _ ?r ?v0 σ] =>
      pose proof (lib_loop_preserves Q P libs ks c0 nthreads k r Hk
                    (λ lib v σ c Hin, Hstep k lib v σ c Hk Hin) v0 σ Hc Hq) as Hq1;
      destruct (lib_loop P libs nthreads k r v0 σ) as [[v1 | e] σ1]
    end.
    + destruct Hst as [Hst _].
      destruct (kmer_body P libs nthreads k v σ) as [[[c v2] | e] σ2];
        simpl in *; subst σ2; [| done].
      destruct Hs as [_ Hc2]. destruct c; [| done].
      apply IH; [| done | done]. intros x Hx. apply Hsub. by right.
    + by rewrite Hst.
Qed.

(** ... and so by the whole call, when the truncation and the log keep
    it. *)
Lemma assemble_preserves (Q : state → Prop) P fs :
  valid_mode (mode P) = true →
  (∀ k lib v σ c,
     k ∈ make_seq (kmer_sizes P) →
     lib ∈ lib_rounds P (qualifying (<[User (contigs_out P) := []]> fs) (libraries P)) →
     files σ !! User (contigs_out P) = Some c → Q σ →
     Q (attempt_result P
          (qualifying (<[User (contigs_out P) := []]> fs) (libraries P))
          (sanitize_thread_count (threads P)) k lib v c σ).2) →
  (∀ e, Q (mkState (<[User (contigs_out P) := []]> fs) [e] [] [] 0)) →
  Q (assemble P (initial fs)).2.
Proof.
  intros Hm Hstep Hq0. rewrite assemble_valid by done.
  unfold assemble_libs, truncated, initial. unfold mbind, M_bind, get_files.
  cbn [files log calls snapshots next_dir].
  destruct (qualifying _ _) as [| l libs] eqn:Hq.
  - unfold log_msg. simpl. apply Hq0.
  - unfold run_kmers. unfold mbind, M_bind, log_msg.
    cbn [files log calls snapshots next_dir app].
    match goal with |- context [for_loop ?b ?ks ?v0 ?σ0] =>
      assert (Hend : Q (for_loop b ks v0 σ0).2);
      [| by destruct (for_loop b ks v0 σ0) as [[v1 | e] σ1]]
    end.
    apply (kmer_loop_preserves Q P (l :: libs) [] _ (make_seq (kmer_sizes P)));
      try done.
    unfold consistent. simpl. rewrite lookup_insert_eq.
    repeat split; try done. intros c e Hin. by apply elem_of_nil in Hin.
Qed.


Lemma same_but_out_refl P (fs : gmap path bytes) : same_but_out P fs fs.
Proof. by split. Qed.

Lemma same_but_out_rmtree P (fs fs' : gmap path bytes) d :
  same_but_out P fs fs' → same_but_out P fs (rmtree d fs').
Proof.
  intros [Hu Hs]. split.
  - intros s Hne. rewrite lookup_rmtree_user. by apply Hu.
  - intros d' n Hn. rewrite lookup_rmtree. simpl.
    case_bool_decide; [done |]. by apply Hs.
Qed.

Lemma same_but_out_insert P (fs fs' : gmap path bytes) c :
  same_but_out P fs fs' →
  same_but_out P fs (<[User (contigs_out P) := c]> fs').
Proof.
  intros [Hu Hs]. split.
  - intros s Hne. rewrite lookup_insert_ne by congruence. by apply Hu.
  - intros d n Hn. rewrite lookup_insert_ne by done. by apply Hs.
Qed.

(** X4: whether it returns or raises, [assemble] leaves every file of the
    caller other than [contigs_out] as it was, and leaves no scratch file
    behind. *)
Theorem only_contigs_out_changes P fs :
  same_but_out P fs (files (assemble P (initial fs)).2).
Proof.
  destruct (valid_mode (mode P)) eqn:Hm.
  2:{ rewrite assemble_invalid by done. apply same_but_out_refl. }
  apply (assemble_preserves (λ σ, same_but_out P fs (files σ))); [done | |].
  - intros k lib v σ c _ _ _ Hq. unfold attempt_result.
    case_bool_decide; [| by apply same_but_out_rmtree].
    case_bool_decide; [| by apply same_but_out_rmtree].
    destruct (yield P _); simpl.
    + by apply same_but_out_insert, same_but_out_rmtree.
    + by apply same_but_out_rmtree.
  - intros e. simpl. apply same_but_out_insert, same_but_out_refl.
Qed.

Lemma args_of_rna P libs nthreads k lib d fs :
  mode P = "rna" →
  args_of P libs nthreads k lib d fs
  = "--rna" :: pe_args fs 0 libs ++ common_args P nthreads k d.
Proof.
  intros Hm. unfold args_of, mode_flag, libs_of_attempt. by rewrite Hm.
Qed.

Lemma args_of_meta P libs nthreads k l d fs :
  mode P = "meta" →
  args_of P libs nthreads k (Some l) d fs
  = "--meta" :: lib_args fs 0 l ++ common_args P nthreads k d.
Proof.
  intros Hm. unfold args_of, mode_flag, libs_of_attempt. rewrite Hm. simpl.
  by rewrite app_nil_r.
Qed.

(** X9: every invocation [assemble] makes has, in rna mode, the flag
    [--rna], the numbered arguments of all qualifying libraries and those
    of one k-mer size of the request; in meta mode the flag [--meta], the
    arguments of one qualifying library as number 1 and those of one
    k-mer size of the request. *)
Theorem every_invocation_is_scheduled P fs c :
  c ∈ calls (assemble P (initial fs)).2 →
  let libs := qualifying (<[User (contigs_out P) := []]> fs) (libraries P) in
  let nthreads := sanitize_thread_count (threads P) in
  (mode P = "rna" →
     ∃ k d fs', k ∈ make_seq (kmer_sizes P)
       ∧ call_args c = "--rna" :: pe_args fs' 0 libs ++ common_args P nthreads k d)
  ∧ (mode P = "meta" →
     ∃ l k d fs', l ∈ libs ∧ k ∈ make_seq (kmer_sizes P)
       ∧ call_args c = "--meta" :: lib_args fs' 0 l ++ common_args P nthreads k d).
Proof.
  intros Hin libs nthreads.
  destruct (valid_mode (mode P)) eqn:Hm.
  2:{ rewrite assemble_invalid in Hin by done. by apply elem_of_nil in Hin. }
  assert (Hall : Forall (scheduled P libs) (calls (assemble P (initial fs)).2)).
  { apply (assemble_preserves (λ σ, Forall (scheduled P libs) (calls σ)));
      [done | | done].
    intros k lib v σ c' Hk Hlib _ Hq. unfold attempt_result.
    assert (Hnew : ∀ d fs' r,
              Forall (scheduled P libs)
                (calls σ ++ [mkCall (args_of P libs nthreads k lib d fs') r])).
    { intros d fs' r. apply Forall_app. split; [done |].
      apply Forall_singleton. by exists k, lib, d, fs'. }
    case_bool_decide; [| done]. case_bool_decide; [| done].
    destruct (yield P _); apply Hnew. }
  rewrite Forall_forall in Hall.
  destruct (Hall c Hin) as (k & lib & d & fs' & Hk & Hlib & Hargs).
  split; intros Hmode.
  - exists k, d, fs'. split; [done |]. rewrite Hargs. by apply args_of_rna.
  - unfold lib_rounds in Hlib. rewrite Hmode in Hlib. simpl in Hlib.
    apply list_elem_of_fmap in Hlib as (l & -> & Hl).
    exists l, k, d, fs'. split; [done |]. split; [done |].
    rewrite Hargs. by apply args_of_meta.
Qed.

Lemma too_many_true P libs :
  too_many P libs = true → mode P = "rna" ∧ (9 < length libs)%nat.
Proof.
  unfold too_many. intros Hb. apply andb_true_iff in Hb as [Hm Hl].
  apply String.eqb_eq in Hm. by apply bool_decide_eq_true in Hl.
Qed.

(** X3: an exception that leaves [assemble] is the assertion on the mode
    (nothing was touched), the assertion on the number of libraries in rna
    mode (nothing was run), the error of [shlex.split] on a [spades_opts]
    that is not empty and does not split (nothing was run), or, without
    [always_succeed], the failure of the last invocation: the tool's own,
    or the runtime error for the missing transcripts file.  No file
    operation of the call fails. *)
Theorem errors_of_assemble P fs e :
  (assemble P (initial fs)).1 = Raise e →
  let run := assemble P (initial fs) in
  let libs := qualifying (<[User (contigs_out P) := []]> fs) (libraries P) in
  (valid_mode (mode P) = false
   ∧ e = AssertionError (Some ("Invalid SPAdes mode: " +:+ mode P))
   ∧ run.2 = initial fs)
  ∨ (mode P = "rna" ∧ (9 < length libs)%nat
     ∧ e = AssertionError None ∧ calls run.2 = [])
  ∨ (spades_opts P ≠ "" ∧ shlex_split (spades_opts P) = None
     ∧ e = ValueError ∧ calls run.2 = [])
  ∨ (always_succeed P = false
     ∧ ∃ c k, last (calls run.2) = Some c ∧ k ∈ make_seq (kmer_sizes P)
        ∧ ((∃ e', tool_error (call_result c) = Some e' ∧ e = ToolFailure e')
           ∨ (tool_error (call_result c) = None
              ∧ expected_out P (call_result c) = None
              ∧ e = RuntimeError (missing_msg k)))).
Proof.
  intros Hr run libs. subst run.
  destruct (valid_mode (mode P)) eqn:Hm.
  2:{ left. rewrite assemble_invalid in * by done. simpl in *. by injection Hr as <-. }
  right. pose proof (assemble_run P fs Hm) as Hrun.
  destruct (assemble P (initial fs)) as [[[] | e0] σ']; simpl in *; [done |].
  injection Hr as ->.
  destruct Hrun as [(-> & Hmany & _ & _ & _ & _ & I5)
                   | [(-> & _ & Hno & _ & _ & _ & _ & I5)
                     | (cs & c & k & Hcs & Hy & -> & Hk & _)]].
  - left. apply too_many_true in Hmany as Hmany'. destruct Hmany' as [Hrna Hlen].
    split; [done |]. split; [done |]. split; [done |].
    destruct (calls σ') as [| c cs] eqn:Hc; [done |].
    destruct I5 as [I5 _]; [done |]. congruence.
  - right. left. unfold split_opts in Hno.
    destruct (String.eqb (spades_opts P) "") eqn:Hopts; [done |].
    apply String.eqb_neq in Hopts. simpl in Hno.
    split; [done |]. split; [done |]. split; [done |].
    destruct (calls σ') as [| c cs] eqn:Hc; [done |].
    destruct I5 as [_ [? I5]]; [done |]. unfold split_opts in I5.
    apply String.eqb_neq in Hopts. rewrite Hopts in I5. simpl in I5. congruence.
  - right. right. unfold yield in Hy.
    assert (HAS : always_succeed P = false).
    { destruct (always_succeed P); [| done].
      destruct (tool_error (call_result c)); [done |].
      by destruct (expected_out P (call_result c)). }
    split; [done |]. exists c, k. rewrite Hcs, last_snoc.
    split; [done |]. split; [done |]. unfold failure.
    destruct (tool_error (call_result c)) as [e' |]; [left; eauto |].
    right. destruct (expected_out P (call_result c)); [done |]. done.
Qed.

(** X2: with [always_succeed], a valid mode, a [spades_opts] that is
    empty or splits into words, and meta mode or at most nine qualifying
    libraries, [assemble] returns normally whatever the assembler does. *)
Theorem always_succeed_returns P fs :
  always_succeed P = true →
  valid_mode (mode P) = true →
  is_Some (split_opts P) →
  mode P = "meta"
  ∨ (length (qualifying (<[User (contigs_out P) := []]> fs) (libraries P)) ≤ 9)%nat →
  (assemble P (initial fs)).1 = Ok tt.
Proof.
  intros HAS Hm [opts Hopts] Hfew. pose proof (assemble_run P fs Hm) as Hrun.
  destruct (assemble P (initial fs)) as [[[] | e0] σ']; simpl in *; [done |].
  exfalso.
  apply aborted_tolerant in Hrun as [_ [(_ & Hmany) | (_ & _ & Hno)]]; [| | done].
  - apply too_many_true in Hmany as [Hrna Hlen].
    destruct Hfew as [Hmeta | Hle]; [congruence | lia].
  - congruence.
Qed.

(** The loop over the libraries makes one invocation per round, up to
    the round that raises. *)
Lemma lib_loop_count P libs (ks : list kmer_size) c0 nthreads k rounds :
  k ∈ ks →
  ∀ v σ, consistent P libs c0 σ →
    match lib_loop P libs nthreads k rounds v σ with
    | (Ok _, σ') =>
        length (calls σ') = (length (calls σ) + length rounds)%nat
    | (Raise _, σ') =>
        (length (calls σ') ≤ length (calls σ) + length rounds)%nat
    end.
Proof.
  intros Hk. induction rounds as [| lib rounds IH]; intros v σ Hc.
  - rewrite lib_loop_nil. simpl. lia.
  - rewrite lib_loop_cons.
    pose proof (attempt_step P libs ks c0 nthreads k lib v σ Hk Hc) as Hs.
    pose proof Hc as (I1 & _).
    pose proof (attempt_eq P libs nthreads k lib v _ σ I1) as Ha.
    unfold attempt_result in Ha.
    destruct (attempt P libs nthreads k lib v σ) as [[v1 | e] σ1].
    + destruct Hs as (Hc1 & _). specialize (IH v1 σ1 Hc1).
      assert (Hone : length (calls σ1) = S (length (calls σ))).
      { case_bool_decide; [| done]. case_bool_decide; [| done].
        destruct (yield P _); [| done].
        injection Ha as _ ->. simpl. rewrite length_app. simpl. lia. }
      destruct (lib_loop P libs nthreads k rounds v1 σ1) as [[v2 | e] σ2];
        simpl; lia.
    + simpl. case_bool_decide; [case_bool_decide |].
      * destruct (yield P _); [done |]. injection Ha as _ ->. simpl.
        rewrite length_app. simpl. lia.
      * injection Ha as _ ->. simpl. lia.
      * injection Ha as _ ->. simpl. lia.
Qed.

Lemma kmer_loop_count P libs c0 nthreads (ks : list kmer_size) :
  libs ≠ [] →
  ∀ ks', ks' ⊆ ks →
  ∀ v σ, consistent P libs c0 σ →
    match for_loop (kmer_body P libs nthreads) ks' v σ with
    | (Ok _, σ') =>
        length (calls σ')
        = (length (calls σ) + length ks' * length (lib_rounds P libs))%nat
    | (Raise _, σ') =>
        (length (calls σ')
         ≤ length (calls σ) + length ks' * length (lib_rounds P libs))%nat
    end.
Proof.
  intros Hne ks'. induction ks' as [| k ks' IH]; intros Hsub v σ Hc.
  - simpl. lia.
  - cbn [for_loop]. unfold mbind, M_bind.
    assert (Hk : k ∈ ks) by (apply Hsub; left).
    pose proof (kmer_body_step P libs ks c0 nthreads k v σ Hk Hne Hc) as Hs.
    pose proof (kmer_body_state P libs nthreads k v σ) as Hst.
    match type of Hst with context [lib_loop _ _ _ _ ?r ?v0 σ] =>
      pose proof (lib_loop_count P libs ks c0 nthreads k r Hk v0 σ Hc) as Hn;
      destruct (lib_loop P libs nthreads k r v0 σ) as [[v1 | e] σ1]
    end.
    + destruct Hst as [Hst _].
      destruct (kmer_body P libs nthreads k v σ) as [[[c v2] | e] σ2];
        simpl in *; subst σ2.
      * destruct Hs as [-> Hc2].
        assert (Hsub' : ks' ⊆ ks) by (intros x Hx; apply Hsub; by right).
        specialize (IH Hsub' v2 σ1 Hc2).
        destruct (for_loop (kmer_body P libs nthreads) ks' v2 σ1)
          as [[v3 | e] σ3]; simpl; lia.
      * lia.
    + rewrite Hst. simpl. lia.
Qed.

(** X1: when some library qualifies, the assembler is invoked at most once
    per k-mer size and round of the library loop (one round in rna mode,
    one per qualifying library in meta mode), and exactly that often when
    the call returns normally, whatever [max_kmer_sizes] is. *)
Theorem every_kmer_size_is_tried P fs l ls :
  valid_mode (mode P) = true →
  qualifying (<[User (contigs_out P) := []]> fs) (libraries P) = l :: ls →
  let run := assemble P (initial fs) in
  let planned := (length (make_seq (kmer_sizes P))
                  * length (lib_rounds P (l :: ls)))%nat in
  (length (calls run.2) ≤ planned)%nat
  ∧ (run.1 = Ok tt → length (calls run.2) = planned)
  ∧ length (lib_rounds P (l :: ls))
    = (if String.eqb (mode P) "meta" then S (length ls) else 1)%nat.
Proof.
  intros Hm Hq run planned. subst run planned.
  rewrite (assemble_some_library P fs l ls Hm Hq).
  split; [| split].
  3:{ unfold lib_rounds. destruct (String.eqb (mode P) "meta"); [| done].
      by rewrite length_fmap. }
  all: unfold run_kmers, truncated, initial; unfold mbind, M_bind, log_msg;
    cbn [files log calls snapshots next_dir app].
  all: match goal with |- context [for_loop ?b ?ks ?v0 ?σ0] =>
      pose proof (kmer_loop_count P (l :: ls) [] (sanitize_thread_count (threads P))
                    (make_seq (kmer_sizes P)) ltac:(done)
                    (make_seq (kmer_sizes P)) ltac:(done) v0 σ0) as Hn;
      assert (Hc0 : consistent P (l :: ls) [] σ0)
        by (unfold consistent; simpl; rewrite lookup_insert_eq;
            repeat split; try done;
            intros c e' Hin; by apply elem_of_nil in Hin);
      specialize (Hn Hc0);
      destruct (for_loop b ks v0 σ0) as [[v1 | e] σ1]
    end.
  all: simpl in Hn |- *; first [lia | intros; first [discriminate | lia]].
Qed.

Lemma is_nonempty_file_emptied (fs : gmap path bytes) p :
  is_nonempty_file (<[p := []]> fs) (Some p) = false.
Proof.
  unfold is_nonempty_file. rewrite lookup_insert_eq. simpl.
  apply andb_false_r.
Qed.

Lemma emptied_reads_do_not_qualify (fs : gmap path bytes) s lib :
  reads_fwd lib = Some s →
  is_nonempty_file (<[User s := []]> fs) (User <$> reads_fwd lib) = false.
Proof. intros ->. apply is_nonempty_file_emptied. Qed.

(** X5: [contigs_out] is made empty before the libraries are filtered, so
    a library whose forward reads are the file [contigs_out] never
    qualifies; when this is so of every library, the call only empties
    that file, warns and returns. *)
Theorem reads_in_contigs_out_are_lost P σ :
  valid_mode (mode P) = true →
  (∀ lib, lib ∈ qualifying (files (truncated P σ)) (libraries P) →
          reads_fwd lib ≠ Some (contigs_out P))
  ∧ (Forall (λ lib, reads_fwd lib = Some (contigs_out P)) (libraries P) →
     assemble P σ
     = (Ok tt,
        mkState (<[User (contigs_out P) := []]> (files σ))
          (log σ ++ [WarnNoLibraries]) (calls σ) (snapshots σ) (next_dir σ))).
Proof.
  intros Hm. split.
  - intros lib Hin Hfwd. unfold qualifying in Hin.
    apply list_elem_of_In, filter_In in Hin as [_ Hne].
    unfold truncated in Hne. cbn [files] in Hne.
    by rewrite (emptied_reads_do_not_qualify _ _ _ Hfwd) in Hne.
  - intros Hall. rewrite assemble_valid by done.
    unfold assemble_libs, truncated, mbind, M_bind, get_files. simpl.
    assert (Hq : qualifying (<[User (contigs_out P) := []]> (files σ))
                   (libraries P) = []).
    { unfold qualifying. induction Hall as [| lib libs Hfwd _ IH]; [done |].
      cbn [List.filter].
      by rewrite (emptied_reads_do_not_qualify _ _ _ Hfwd). }
    by rewrite Hq.
Qed.

(** X6: with an empty list of k-mer sizes [assemble] empties
    [contigs_out], logs the warning or the number of qualifying libraries,
    and returns normally without running anything. *)
Theorem no_kmer_size_no_run P σ :
  valid_mode (mode P) = true →
  kmer_sizes P = Some [] →
  let libs := qualifying (files (truncated P σ)) (libraries P) in
  assemble P σ
  = (Ok tt,
     mkState (<[User (contigs_out P) := []]> (files σ))
       (log σ ++ [match libs with
                  | [] => WarnNoLibraries
                  | _ => InfoAssembling (length libs)
                  end])
       (calls σ) (snapshots σ) (next_dir σ)).
Proof.
  intros Hm Hks libs. subst libs. rewrite assemble_valid by done.
  unfold assemble_libs, truncated, mbind, M_bind, get_files.
  cbn [files log calls snapshots next_dir].
  destruct (qualifying _ _) as [| l ls]; [done |].
  unfold run_kmers. rewrite Hks. done.
Qed.

(** X7: in meta mode [filter_contigs] has no influence on the call. *)
Theorem meta_ignores_filter_contigs P b σ :
  mode P = "meta" →
  assemble (with_filter_contigs b P) σ = assemble P σ.
Proof.
  intros Hm. destruct P as [ls out ct cu ks m as_ mx fc mcl mem th so].
  simpl in Hm. subst m. reflexivity.
Qed.

(** X8: dropping the contigs shorter than [L2] and then those shorter than
    [L1] drops those shorter than the larger; a bound of zero or less
    drops none.  With [min_contig_len] zero the transcripts file is not
    read as FASTA: an attempt appends the transcripts to [contigs_out] as
    they are, and [transcripts_fname] stays the file of the tool.  With a
    negative one the transcripts are still parsed and all their records
    written anew to the scratch file named after the bound and the
    counter, and this is what the attempt appends. *)
Theorem length_threshold_edges P :
  (∀ L1 L2 rs, sans_short L1 (sans_short L2 rs) = sans_short (Z.max L1 L2) rs)
  ∧ (∀ L rs, L ≤ 0 → sans_short L rs = rs)
  ∧ (min_contig_len P = 0 →
     (∀ d count tf σ, drop_short P d count tf σ = (Ok tf, σ))
     ∧ (∀ libs nthreads k lib v σ c0 v1 σ1,
          files σ !! User (contigs_out P) = Some c0 →
          attempt P libs nthreads k lib v σ = (Ok v1, σ1) →
          ∃ cl t,
            calls σ1 = calls σ ++ [cl]
            ∧ yield P (call_result cl) = Some t
            ∧ files σ1 !! User (contigs_out P) = Some (c0 ++ t)
            ∧ transcripts_fname v1
              = Some (Scratch (next_dir σ) (transcripts_name P))))
  ∧ (min_contig_len P < 0 →
     (∀ d count tf σ t,
        files σ !! tf = Some t →
        drop_short P d count tf σ
        = (Ok (Scratch d (over_name (min_contig_len P) count)),
           mkState (<[Scratch d (over_name (min_contig_len P) count)
                      := write_fasta (parse_fasta t)]> (files σ))
             (log σ) (calls σ) (snapshots σ) (next_dir σ)))
     ∧ (∀ libs nthreads k lib v σ c0 v1 σ1,
          files σ !! User (contigs_out P) = Some c0 →
          attempt P libs nthreads k lib v σ = (Ok v1, σ1) →
          ∃ cl t,
            calls σ1 = calls σ ++ [cl]
            ∧ yield P (call_result cl) = Some t
            ∧ files σ1 !! User (contigs_out P)
              = Some (c0 ++ write_fasta (parse_fasta t))
            ∧ transcripts_fname v1
              = Some (Scratch (next_dir σ)
                        (over_name (min_contig_len P) (contigs_cumul_count v))))).
Proof.
  assert (Hle : ∀ L rs, L ≤ 0 → sans_short L rs = rs).
  { intros L rs HL. unfold sans_short. induction rs as [| r rs IH]; [done |].
    simpl. assert ((seq_len r >=? L) = true) as ->.
    { apply Z.geb_le. unfold seq_len. lia. }
    by rewrite IH. }
  split; [| split; [done | split]].
  - intros L1 L2 rs. unfold sans_short. induction rs as [| r rs IH]; [done |].
    simpl. destruct (seq_len r >=? L2) eqn:E2; simpl.
    + destruct (seq_len r >=? L1) eqn:E1.
      * assert ((seq_len r >=? Z.max L1 L2) = true) as ->.
        { apply Z.geb_le. apply Z.geb_le in E1, E2. lia. }
        by rewrite IH.
      * assert ((seq_len r >=? Z.max L1 L2) = false) as ->.
        { rewrite Z.geb_leb in *. apply Z.leb_gt. apply Z.leb_gt in E1. lia. }
        done.
    + assert ((seq_len r >=? Z.max L1 L2) = false) as ->.
      { rewrite Z.geb_leb in *. apply Z.leb_gt. apply Z.leb_gt in E2. lia. }
      done.
  - intros HL. split.
    + intros d count tf σ. unfold drop_short. by rewrite HL.
    + intros libs nthreads k lib v σ c0 v1 σ1 Hout Ha.
      destruct (attempt_appends _ _ _ _ _ _ _ _ _ _ Hout Ha)
        as (cl & t & Hcalls & Hy & Hfiles & Htf & _).
      exists cl, t. unfold filtered, final_name in *. rewrite HL in *. done.
  - intros HL.
    assert (Hnz : negb (min_contig_len P =? 0) = true).
    { apply negb_true_iff, Z.eqb_neq. lia. }
    split.
    + intros d count tf σ t Ht. rewrite (drop_short_eq _ _ _ _ _ _ Ht).
      unfold filtered. rewrite Hnz. by rewrite Hle by lia.
    + intros libs nthreads k lib v σ c0 v1 σ1 Hout Ha.
      destruct (attempt_appends _ _ _ _ _ _ _ _ _ _ Hout Ha)
        as (cl & t & Hcalls & Hy & Hfiles & Htf & _).
      exists cl, t. unfold filtered, final_name in *. rewrite Hnz in *.
      rewrite Hle in Hfiles by lia. done.
Qed.

(** A loop whose body never breaks splits over an appended list. *)
Lemma for_loop_app {A L} (I : L → state → Prop)
    (body : A → L → M (control * L)) xs ys :
  (∀ x v σ, x ∈ xs → I v σ →
     match body x v σ with
     | (Ok cv, σ') => cv.1 = Continue ∧ I cv.2 σ'
     | (Raise _, _) => True
     end) →
  ∀ v σ, I v σ →
    for_loop body (xs ++ ys) v σ
    = match for_loop body xs v σ with
      | (Ok v1, σ1) => for_loop body ys v1 σ1
      | (Raise e, σ1) => (Raise e, σ1)
      end.
Proof.
  induction xs as [| x xs IH]; intros Hbody v σ Hi.
  - done.
  - cbn [app for_loop]. unfold mbind, M_bind.
    pose proof (Hbody x v σ (list_elem_of_here _ _) Hi) as Hx.
    destruct (body x v σ) as [[[c v1] | e] σ1]; [| done].
    destruct Hx as [Hc Hi1]. simpl in Hc, Hi1. subst c. cbn [fst snd].
    apply IH; [| done]. intros y v' σ' Hy. apply Hbody. by right.
Qed.

Lemma kmer_loop_app P libs c0 nthreads (ks1 ks2 : list kmer_size) v σ :
  libs ≠ [] →
  consistent P libs c0 σ →
  for_loop (kmer_body P libs nthreads) (ks1 ++ ks2) v σ
  = match for_loop (kmer_body P libs nthreads) ks1 v σ with
    | (Ok v1, σ1) => for_loop (kmer_body P libs nthreads) ks2 v1 σ1
    | (Raise e, σ1) => (Raise e, σ1)
    end.
Proof.
  intros Hne Hc.
  apply (for_loop_app (λ _ σ, consistent P libs c0 σ)); [| done].
  intros k v' σ' Hk Hc'.
  pose proof (kmer_body_step P libs ks1 c0 nthreads k v' σ' Hk Hne Hc') as Hs.
  by destruct (kmer_body P libs nthreads k v' σ') as [[cv | e] σ1].
Qed.

(** X10: k-mer sizes are worked through in order and independently: when
    the call with the sizes [ks1] raises, the call with [ks1 ++ ks2] ends
    the same way; when it returns, the call with [ks1 ++ ks2] makes the
    same invocations first, and what it leaves in [contigs_out] starts
    with what the shorter call leaves. *)
Theorem more_kmer_sizes_extend P fs ks1 ks2 :
  valid_mode (mode P) = true →
  let run1 := assemble (with_kmer_sizes (Some ks1) P) (initial fs) in
  let run12 := assemble (with_kmer_sizes (Some (ks1 ++ ks2)) P) (initial fs) in
  (∀ e, run1.1 = Raise e → run12 = run1)
  ∧ (run1.1 = Ok tt →
     calls run1.2 `prefix_of` calls run12.2
     ∧ ∃ c1 c12,
         files run1.2 !! User (contigs_out P) = Some c1
         ∧ files run12.2 !! User (contigs_out P) = Some c12
         ∧ c1 `prefix_of` c12).
Proof.
  intros Hm run1 run12. subst run1 run12.
  destruct P as [ls out ct cu ks m as_ mx fc mcl mem th so].
  unfold with_kmer_sizes. cbn [libraries contigs_out contigs_trusted
    contigs_untrusted kmer_sizes mode always_succeed max_kmer_sizes
    filter_contigs min_contig_len mem_limit_gb threads spades_opts] in *.
  set (P1 := mkParams ls out ct cu (Some ks1) m as_ mx fc mcl mem th so).
  set (P12 := mkParams ls out ct cu (Some (ks1 ++ ks2)) m as_ mx fc mcl mem th so).
  destruct (qualifying (<[User out := []]> fs) ls) as [| l libs] eqn:Hq.
  { assert (E : ∀ P', valid_mode (mode P') = true → contigs_out P' = out →
                libraries P' = ls →
                assemble P' (initial fs)
                = (Ok tt, mkState (<[User out := []]> fs) [WarnNoLibraries] [] [] 0)).
    { intros P' Hm' Ho Hl. rewrite assemble_valid by done.
      unfold assemble_libs, truncated, initial, mbind, M_bind, get_files.
      cbn [files log calls snapshots next_dir]. by rewrite Ho, Hl, Hq. }
    rewrite (E P1), (E P12) by done. cbn [fst snd files calls].
    split; [done |]. intros _. split; [reflexivity |].
    exists [], []. rewrite lookup_insert_eq. repeat split; reflexivity. }
  set (nt := sanitize_thread_count th).
  set (v0 := mkLocals 0 0 false None).
  set (σ0 := mkState (<[User out := []]> fs) [InfoAssembling (length (l :: libs))]
               [] [] 0).
  assert (E : ∀ P', valid_mode (mode P') = true → contigs_out P' = out →
              libraries P' = ls → threads P' = th →
              assemble P' (initial fs)
              = match for_loop (kmer_body P' (l :: libs) nt)
                        (make_seq (kmer_sizes P')) v0 σ0 with
                | (Ok _, σ') => (Ok tt, σ')
                | (Raise e, σ') => (Raise e, σ')
                end).
  { intros P' Hm' Ho Hl Ht.
    rewrite (assemble_some_library P' fs l libs Hm') by (by rewrite Ho, Hl).
    unfold run_kmers, truncated, initial, mbind, M_bind, log_msg.
    cbn [files log calls snapshots next_dir app]. rewrite Ho, Ht. fold nt.
    by destruct (for_loop _ _ _ _) as [[v1 | e] σ1]. }
  rewrite (E P1), (E P12) by done. clear E.
  change (make_seq (kmer_sizes P12)) with (ks1 ++ ks2).
  change (make_seq (kmer_sizes P1)) with ks1.
  change (kmer_body P12) with (kmer_body P1).
  assert (Hc0 : consistent P1 (l :: libs) [] σ0).
  { unfold consistent. simpl. rewrite lookup_insert_eq.
    repeat split; try done. intros c e Hin. by apply elem_of_nil in Hin. }
  rewrite (kmer_loop_app P1 (l :: libs) [] nt ks1 ks2 v0 σ0 ltac:(done) Hc0).
  pose proof (for_loop_inv (λ (_ : locals) σ, consistent P1 (l :: libs) [] σ)
                (aborted P1 (l :: libs) ks1 [])
                (kmer_body P1 (l :: libs) nt) ks1) as Hinv1.
  specialize (Hinv1 (λ k v σ Hk Hc,
    match kmer_body P1 (l :: libs) nt k v σ as r
      return (match r with
              | (Ok cv, σ') => cv.1 = Continue ∧ consistent P1 (l :: libs) [] σ'
              | (Raise e, σ') => aborted P1 (l :: libs) ks1 [] e σ'
              end →
              match r with
              | (Ok cv, σ') => consistent P1 (l :: libs) [] σ'
              | (Raise e, σ') => aborted P1 (l :: libs) ks1 [] e σ'
              end)
    with
    | (Ok cv, σ') => λ X, proj2 X
    | (Raise e, σ') => λ X, X
    end (kmer_body_step P1 (l :: libs) ks1 [] nt k v σ Hk ltac:(done) Hc))
    v0 σ0 Hc0).
  destruct (for_loop (kmer_body P1 (l :: libs) nt) ks1 v0 σ0) as [[v1 | e1] σ1].
  2:{ split; [done |]. cbn [fst]. done. }
  rename Hinv1 into Hstep1.
  split; [cbn [fst]; done |]. intros _.
  pose proof Hstep1 as (I1 & I2 & I3 & _).
  pose proof (for_loop_inv (λ (_ : locals) σ, consistent P1 (l :: libs) [] σ)
                (aborted P1 (l :: libs) ks2 [])
                (kmer_body P1 (l :: libs) nt) ks2) as Hinv.
  assert (Hpre : (λ σ, calls σ1 `prefix_of` calls σ)
                   (for_loop (kmer_body P1 (l :: libs) nt) ks2 v1 σ1).2).
  { apply (kmer_loop_preserves (λ σ, calls σ1 `prefix_of` calls σ) P1
             (l :: libs) [] nt ks2); try done.
    intros k lib v σ c _ _ _ Hp. unfold attempt_result.
    case_bool_decide; [| done]. case_bool_decide; [| done].
    destruct (yield P1 _); simpl; by apply prefix_app_r. }
  simpl in Hpre.
  specialize (Hinv (λ k v σ Hk Hc,
    match kmer_body P1 (l :: libs) nt k v σ as r
      return (match r with
              | (Ok cv, σ') => cv.1 = Continue ∧ consistent P1 (l :: libs) [] σ'
              | (Raise e, σ') => aborted P1 (l :: libs) ks2 [] e σ'
              end →
              match r with
              | (Ok cv, σ') => consistent P1 (l :: libs) [] σ'
              | (Raise e, σ') => aborted P1 (l :: libs) ks2 [] e σ'
              end)
    with
    | (Ok cv, σ') => λ X, proj2 X
    | (Raise e, σ') => λ X, X
    end (kmer_body_step P1 (l :: libs) ks2 [] nt k v σ Hk ltac:(done) Hc))
    v1 σ1 Hstep1).
  change (contigs_out P1) with out in *.
  destruct (for_loop (kmer_body P1 (l :: libs) nt) ks2 v1 σ1) as [[v2 | e2] σ2];
    cbn [fst snd] in *.
  - split; [done |]. destruct Hinv as (J1 & _). simpl in I1, J1.
    eexists _, _. split; [exact I1 |]. split; [exact J1 |].
    destruct Hpre as [more ->]. rewrite merged_app. by apply prefix_app_r.
  - split; [done |]. simpl in I1.
    destruct Hinv as [(_ & _ & J1 & _)
                     | [(_ & _ & _ & J1 & _)
                       | (cs & c & k & Hcs & Hy & _ & _ & J1 & _)]].
    + simpl in J1. eexists _, _. split; [exact I1 |]. split; [exact J1 |].
      destruct Hpre as [more ->]. rewrite merged_app. by apply prefix_app_r.
    + simpl in J1. eexists _, _. split; [exact I1 |]. split; [exact J1 |].
      destruct Hpre as [more ->]. rewrite merged_app. by apply prefix_app_r.
    + simpl in J1. eexists _, _. split; [exact I1 |]. split; [exact J1 |].
      destruct Hpre as [more Hmore]. rewrite Hcs in Hmore.
      destruct (decide (more = [])) as [-> | Hne].
      * exfalso. rewrite app_nil_r in Hmore.
        rewrite Forall_forall in I3.
        destruct (I3 c) as [t Ht]; [| congruence].
        rewrite <- Hmore. apply elem_of_app. right. by left.
      * destruct (exists_last Hne) as (more' & c' & ->).
        rewrite app_assoc in Hmore. apply app_inj_tail in Hmore as [-> _].
        rewrite merged_app. by apply prefix_app_r.
Qed.
End More.

(** ** These on concrete runs *)

Module MoreRuns.
Import Examples.

Lemma every_kmer_size_is_tried_witness :
  let X := externals_of tool_good in
  let run := @assemble X rna_three (initial disk) in
  (valid_mode (mode rna_three) = true
   ∧ qualifying (<[User (contigs_out rna_three) := []]> disk) (libraries rna_three)
     = [lib_a]
   ∧ run.1 = Ok tt)
  ∧ length (calls run.2) = 3%nat.
Proof.
  intros X run.
  assert (H1 : valid_mode (mode rna_three) = true) by reflexivity.
  assert (H2 : qualifying (<[User (contigs_out rna_three) := []]> disk)
                 (libraries rna_three) = [lib_a]) by (vm_compute; reflexivity).
  assert (H3 : run.1 = Ok tt) by (vm_compute; reflexivity).
  split; [exact (conj H1 (conj H2 H3)) |].
  exact (proj1 (proj2 (@every_kmer_size_is_tried X rna_three disk lib_a [] H1 H2)) H3).
Defined.

Lemma always_succeed_returns_witness :
  let X := externals_of tool_fail in
  (always_succeed (meta_two true 0) = true
   ∧ valid_mode (mode (meta_two true 0)) = true
   ∧ is_Some (@split_opts X (meta_two true 0))
   ∧ mode (meta_two true 0) = "meta")
  ∧ (@assemble X (meta_two true 0) (initial disk)).1 = Ok tt.
Proof.
  intros X.
  assert (H1 : always_succeed (meta_two true 0) = true) by reflexivity.
  assert (H2 : valid_mode (mode (meta_two true 0)) = true) by reflexivity.
  assert (Ho : is_Some (@split_opts X (meta_two true 0))) by (by exists []).
  assert (H3 : mode (meta_two true 0) = "meta") by reflexivity.
  split; [exact (conj H1 (conj H2 (conj Ho H3))) |].
  exact (@always_succeed_returns X (meta_two true 0) disk H1 H2 Ho (or_introl H3)).
Defined.

Lemma errors_of_assemble_witness :
  let X := externals_of tool_good in
  let P := open_quote in
  let run := @assemble X P (initial disk) in
  run.1 = Raise ValueError
  ∧ always_succeed P = true
  ∧ spades_opts P ≠ ""
  ∧ calls run.2 = [].
Proof.
  intros X P run.
  assert (H1 : run.1 = Raise ValueError) by (vm_compute; reflexivity).
  split; [exact H1 |]. split; [reflexivity |].
  destruct (@errors_of_assemble X P disk _ H1)
    as [(Hm & _) | [(_ & _ & He & _) | [(Ho & _ & _ & Hc) | (HAS & _)]]].
  - discriminate Hm.
  - discriminate He.
  - exact (conj Ho Hc).
  - discriminate HAS.
Defined.

Lemma reads_in_contigs_out_are_lost_witness :
  let X := externals_of tool_good in
  (valid_mode (mode self_reads) = true
   ∧ Forall (λ lib, reads_fwd lib = Some (contigs_out self_reads))
       (libraries self_reads)
   ∧ files (initial disk) !! User (contigs_out self_reads) = Some (bytes_of "old"))
  ∧ @assemble X self_reads (initial disk)
    = (Ok tt,
       mkState (<[User "out.fasta" := []]> disk) [WarnNoLibraries] [] [] 0).
Proof.
  intros X.
  assert (H1 : valid_mode (mode self_reads) = true) by reflexivity.
  assert (H2 : Forall (λ lib, reads_fwd lib = Some (contigs_out self_reads))
                 (libraries self_reads)) by (repeat constructor).
  split; [split; [exact H1 | split; [exact H2 | vm_compute; reflexivity]] |].
  exact (proj2 (@reads_in_contigs_out_are_lost X self_reads (initial disk) H1) H2).
Defined.

Lemma no_kmer_size_no_run_witness :
  let X := externals_of tool_good in
  (valid_mode (mode (rna_ten (Some []))) = true
   ∧ kmer_sizes (rna_ten (Some [])) = Some [])
  ∧ (@assemble X (rna_ten (Some [])) (initial disk)).1 = Ok tt
  ∧ calls (@assemble X (rna_ten (Some [])) (initial disk)).2 = [].
Proof.
  intros X.
  assert (H1 : valid_mode (mode (rna_ten (Some []))) = true) by reflexivity.
  assert (H2 : kmer_sizes (rna_ten (Some [])) = Some []) by reflexivity.
  split; [exact (conj H1 H2) |].
  rewrite (@no_kmer_size_no_run X (rna_ten (Some [])) (initial disk) H1 H2).
  split; reflexivity.
Defined.

Lemma meta_ignores_filter_contigs_witness :
  let X := externals_of tool_good in
  mode (meta_two false 0) = "meta"
  ∧ @assemble X (with_filter_contigs true (meta_two false 0)) (initial disk)
    = @assemble X (meta_two false 0) (initial disk).
Proof.
  intros X.
  assert (H1 : mode (meta_two false 0) = "meta") by reflexivity.
  split; [exact H1 |].
  exact (@meta_ignores_filter_contigs X (meta_two false 0) true (initial disk) H1).
Defined.

Lemma length_threshold_edges_witness :
  let X := externals_of tool_good in
  let P := meta_two false 0 in
  min_contig_len P = 0
  ∧ @drop_short X P 0 0 (Scratch 0 "contigs.fasta") (initial disk)
    = (Ok (Scratch 0 "contigs.fasta"), initial disk).
Proof.
  intros X P.
  assert (H1 : min_contig_len P = 0) by reflexivity.
  split; [exact H1 |].
  exact (proj1 (proj1 (proj2 (proj2 (@length_threshold_edges X P))) H1) _ _ _ _).
Defined.

Lemma every_invocation_is_scheduled_witness :
  let X := externals_of tool_good in
  let P := meta_two false 0 in
  let c := mkCall ["--meta"; "--pe1-1"; "b_1.fq"; "--pe1-2"; "b_2.fq";
                   "-k"; "21"; "-m8"; "-t"; "1"; "-o"; "/tmp/spades1"]
             good_result in
  c ∈ calls (@assemble X P (initial disk)).2
  ∧ ∃ l k d fs',
      l ∈ qualifying (<[User (contigs_out P) := []]> disk) (libraries P)
      ∧ k ∈ make_seq (kmer_sizes P)
      ∧ call_args c
        = "--meta" :: lib_args fs' 0 l
            ++ @common_args X P (sanitize_thread_count (threads P)) k d.
Proof.
  intros X P c.
  assert (H1 : c ∈ calls (@assemble X P (initial disk)).2).
  { apply (list_elem_of_lookup_2 _ 1%nat). vm_compute. reflexivity. }
  split; [exact H1 |].
  exact (proj2 (@every_invocation_is_scheduled X P disk c H1) eq_refl).
Defined.

Lemma more_kmer_sizes_extend_witness :
  let X := externals_of tool_good in
  let P := meta_two false 0 in
  let run1 := @assemble X (with_kmer_sizes (Some [Some 21]) P) (initial disk) in
  let run12 := @assemble X (with_kmer_sizes (Some ([Some 21] ++ [Some 33])) P)
                 (initial disk) in
  (valid_mode (mode P) = true ∧ run1.1 = Ok tt)
  ∧ calls run1.2 `prefix_of` calls run12.2.
Proof.
  intros X P run1 run12.
  assert (H1 : valid_mode (mode P) = true) by reflexivity.
  assert (H2 : run1.1 = Ok tt) by (vm_compute; reflexivity).
  split; [exact (conj H1 H2) |].
  exact (proj1 (proj2 (@more_kmer_sizes_extend X P disk [Some 21] [Some 33] H1) H2)).
Defined.

End MoreRuns.
